(** * The gifting confirmation page: submission workflow

    A shallow embedding of
    [src/app/events/[id]/performers/[performerId]/confirm/page.tsx]:
    the mount effect that reads the payment draft, and the [handleConfirm]
    click handler with its double-submission flag, its session check, the
    event lookup, the record handed to [saveGifting] and the outcome routing.

    Strings are byte strings holding the UTF-8 text of the source literals.
    Numbers are the doubles [Number.parseInt] returns: integers rounded to 53
    bits, the infinities, negative zero and [NaN]. *)

From Stdlib Require Import ZArith List String Ascii Bool Lia DecimalString DecimalPos.
Import ListNotations.
Local Open Scope string_scope.
Local Open Scope Z_scope.

(** ** The JavaScript built-ins the page relies on *)

Module JS.

(** A JavaScript number as the page obtains it: always the result of
    [Number.parseInt], hence [NaN], an integer-valued double, negative zero
    or an infinity.  [Int z] is the double whose value is the integer [z];
    [Int 0] is positive zero. *)
Inductive Num : Type :=
| NaN
| Int (z : Z)
| NegZero
| Infinity
| NegInfinity.

(** Below [2 ^ 53] every integer is a double. *)
Definition two53 : Z := 2 ^ 53.

(** The magnitude from which a rounded value overflows to an infinity. *)
Definition double_limit : Z := 2 ^ 1024.

(** The double nearest to the positive integer [m], ties to even: [m] itself
    when it fits 53 bits, otherwise its leading 53 bits rounded on the
    rest. *)
Definition round_magnitude (m : Z) : Z :=
  let bits := Z.log2 m + 1 in
  if bits <=? 53 then m
  else
    let shift := bits - 53 in
    let q := Z.shiftr m shift in
    let r := m - Z.shiftl q shift in
    let half := Z.shiftl 1 (shift - 1) in
    let q' := if (half <? r) || ((r =? half) && Z.odd q) then q + 1 else q in
    Z.shiftl q' shift.

(** The number value of [sign * m] for a magnitude [m] read from digits:
    a zero keeps its sign, a magnitude too large becomes an infinity. *)
Definition of_integer (sign m : Z) : Num :=
  if m =? 0 then (if sign <? 0 then NegZero else Int 0)
  else
    let v := round_magnitude m in
    if double_limit <=? v then (if sign <? 0 then NegInfinity else Infinity)
    else Int (sign * v).

(** White space and line terminators that [parseInt] skips at the start of
    its argument, one byte long: TAB, LF, VT, FF, CR and SP. *)
Definition is_ws1 (c : ascii) : bool :=
  let n := nat_of_ascii c in
  ((9 <=? n)%nat && (n <=? 13)%nat) || (n =? 32)%nat.

(** U+00A0 in UTF-8. *)
Definition is_ws2 (c1 c2 : ascii) : bool :=
  ((nat_of_ascii c1 =? 194) && (nat_of_ascii c2 =? 160))%nat.

(** U+1680, U+2000..U+200A, U+2028, U+2029, U+202F, U+205F, U+3000 and
    U+FEFF in UTF-8. *)
Definition is_ws3 (c1 c2 c3 : ascii) : bool :=
  let a := nat_of_ascii c1 in
  let b := nat_of_ascii c2 in
  let c := nat_of_ascii c3 in
  (((a =? 225) && (b =? 154) && (c =? 128))
   || ((a =? 226) && (b =? 128)
       && (((128 <=? c) && (c <=? 138)) || (c =? 168) || (c =? 169) || (c =? 175)))
   || ((a =? 226) && (b =? 129) && (c =? 159))
   || ((a =? 227) && (b =? 128) && (c =? 128))
   || ((a =? 239) && (b =? 187) && (c =? 191)))%nat.

Fixpoint trimStart (s : string) : string :=
  match s with
  | String c1 r1 =>
      if is_ws1 c1 then trimStart r1
      else
        match r1 with
        | String c2 r2 =>
            if is_ws2 c1 c2 then trimStart r2
            else
              match r2 with
              | String c3 r3 => if is_ws3 c1 c2 c3 then trimStart r3 else s
              | EmptyString => s
              end
        | EmptyString => s
        end
  | EmptyString => s
  end.

(** The value of a digit or letter: 0-9, then a-z and A-Z as 10-35. *)
Definition digit_of (c : ascii) : option Z :=
  let n := Z.of_nat (nat_of_ascii c) in
  if (48 <=? n) && (n <=? 57) then Some (n - 48)
  else if (97 <=? n) && (n <=? 122) then Some (n - 87)
  else if (65 <=? n) && (n <=? 90) then Some (n - 55)
  else None.

Definition radix_digit (R : Z) (c : ascii) : option Z :=
  match digit_of c with
  | Some d => if d <? R then Some d else None
  | None => None
  end.

(** Reads the longest prefix of radix-[R] digits; [acc] is [None] until a
    first digit has been read. *)
Fixpoint parse_digits (R : Z) (acc : option Z) (s : string) : option Z :=
  match s with
  | EmptyString => acc
  | String c rest =>
      match radix_digit R c with
      | Some d =>
          parse_digits R (Some (R * match acc with Some a => a | None => 0 end + d)) rest
      | None => acc
      end
  end.

(** [Number.parseInt(s)] with no radix argument: leading white space is
    dropped, then a sign, then a [0x]/[0X] prefix selects radix 16 (radix 10
    otherwise), then the longest run of digits is read; no digit gives
    [NaN], and the integer read is rounded to the nearest double. *)
Definition Number_parseInt (s : string) : Num :=
  let S := trimStart s in
  let '(sign, S1) :=
    match S with
    | String "-" r => (-1, r)
    | String "+" r => (1, r)
    | _ => (1, S)
    end in
  let '(R, S2) :=
    match S1 with
    | String "0" (String "x" r) => (16, r)
    | String "0" (String "X" r) => (16, r)
    | _ => (10, S1)
    end in
  match parse_digits R None S2 with
  | None => NaN
  | Some m => of_integer sign m
  end.

(** An integer in plain decimal digits, with a minus sign when negative. *)
Definition decimal (z : Z) : string := NilZero.string_of_int (Z.to_int z).

(** The integer whose digits are printed for the double [v] of [n] digits:
    of the multiples of a power of ten that round to [v], one with the
    fewest significant digits, [k] upwards; of two with as few, the nearer to
    [v], and the even one on a tie. *)
Fixpoint shortest_from (fuel : nat) (k n v : Z) : Z :=
  match fuel with
  | O => v
  | S fuel' =>
      if n <=? k then v
      else
        let p := 10 ^ (n - k) in
        let lo := (v / p) * p in
        let hi := lo + p in
        let lo_ok := round_magnitude lo =? v in
        let hi_ok := round_magnitude hi =? v in
        if lo_ok && hi_ok then
          (if v - lo <? hi - v then lo
           else if hi - v <? v - lo then hi
           else if Z.even (lo / p) then lo else hi)
        else if lo_ok then lo
        else if hi_ok then hi
        else shortest_from fuel' (k + 1) n v
  end.

(** Seventeen significant digits always suffice for a double. *)
Definition shortest (v : Z) : Z :=
  shortest_from 17 1 (Z.of_nat (String.length (decimal v))) v.

Fixpoint strip_zeros (fuel : nat) (c : Z) : Z :=
  match fuel with
  | O => c
  | S fuel' => if (c mod 10 =? 0) && (0 <? c) then strip_zeros fuel' (c / 10) else c
  end.

(** [Number::toString] on a positive integer-valued double: its own digits
    below [2 ^ 53]; above, the shortest digits that read back as the same
    double, followed by zeros up to 21 digits and in exponent form beyond. *)
Definition print_magnitude (v : Z) : string :=
  if v <? two53 then decimal v
  else
    let c := shortest v in
    let n := Z.of_nat (String.length (decimal c)) in
    if n <=? 21 then decimal c
    else
      match decimal (strip_zeros 400 c) with
      | String d EmptyString => String d ("e+" ++ decimal (n - 1))
      | String d rest => String d ("." ++ rest ++ "e+" ++ decimal (n - 1))
      | EmptyString => EmptyString
      end.

(** A number inside a template literal: [`${n}`]. *)
Definition Number_toString (n : Num) : string :=
  match n with
  | NaN => "NaN"
  | Int z => if z <? 0 then "-" ++ print_magnitude (- z) else print_magnitude z
  | NegZero => "0"
  | Infinity => "Infinity"
  | NegInfinity => "-Infinity"
  end.

(** [s || undefined] on a string: the empty string is falsy. *)
Definition or_undefined (s : string) : option string :=
  match s with
  | EmptyString => None
  | _ => Some s
  end.

(** [v || d] on a string that may be undefined. *)
Definition or_default (v : option string) (d : string) : string :=
  match v with
  | Some (String c r) => String c r
  | _ => d
  end.

End JS.
Import JS.

(** ** Data *)

(** The route parameters of the page, [params.id] and [params.performerId],
    as the router hands them over: strings. *)
Module Params.
Record t : Type := { id : string; performerId : string }.
End Params.

(** The payment draft, and the page's [paymentInfo] state built from it. *)
Module Draft.
Record t : Type := { performerName : string; amount : string; comment : string }.
End Draft.

(** What [getUserSession] returns when somebody is logged in. *)
Module Session.
Record t : Type := { email : string; name : string }.
End Session.

(** The argument of [saveGifting]; [None] is [undefined]. *)
Module Gifting.
Record t : Type := {
  user_id : string;
  user_name : string;
  artist_id : string;
  artist_name : string;
  event_id : Num;
  event_name : option string;
  amount : Num;
  comment : option string
}.
End Gifting.

(** What [saveGifting] resolves to; the page reads [success] and [error]. *)
Module SaveResult.
Record t : Type := { success : bool; error : option string }.
End SaveResult.

Module Event.
Record t : Type := { id : Num; title : string }.
End Event.

(** A thrown value. *)
Definition Fault : Type := string.

(** How a call into a collaborator ends. *)
Inductive Outcome (A : Type) : Type :=
| Returns (a : A)
| Throws (f : Fault).
Arguments Returns {A} a.
Arguments Throws {A} f.

(** ** The event table of [handleConfirm] *)

(** What [events[key]] evaluates to when it is not [undefined]: an entry of
    the object literal, or a member the literal inherits from
    [Object.prototype], which is truthy and has no [title]. *)
Inductive Member : Type :=
| Entry (e : Event.t)
| Inherited.

Definition Object_prototype_keys : list string :=
  [ "constructor"; "hasOwnProperty"; "isPrototypeOf"; "propertyIsEnumerable";
    "toLocaleString"; "toString"; "valueOf"; "__proto__";
    "__defineGetter__"; "__defineSetter__"; "__lookupGetter__";
    "__lookupSetter__" ].

Definition events : list (string * Event.t) :=
  [ ("1", {| Event.id := Int 1; Event.title := "サマーフェス2025" |});
    ("2", {| Event.id := Int 2; Event.title := "5周年ライブin横アリ" |});
    ("3", {| Event.id := Int 3; Event.title := "生誕祭2025" |});
    ("4", {| Event.id := Int 4; Event.title := "ウィンターライブ2024" |}) ].

Fixpoint own_property (o : list (string * Event.t)) (key : string) : option Event.t :=
  match o with
  | [] => None
  | (k, e) :: rest => if String.eqb k key then Some e else own_property rest key
  end.

(** [events[key]]. *)
Definition events_get (key : string) : option Member :=
  match own_property events key with
  | Some e => Some (Entry e)
  | None =>
      if existsb (String.eqb key) Object_prototype_keys then Some Inherited
      else None
  end.

Definition member_title (m : Member) : option string :=
  match m with
  | Entry e => Some (Event.title e)
  | Inherited => None
  end.

Definition placeholder_title : string := "イベント".

(** ** What a handler does *)

(** The calls a handler makes, in program order: state setters of the
    component, and calls into the toast, router, persistence, timer and
    console collaborators.  [uncaught] marks a fault leaving a handler. *)
Inductive Action : Type :=
| setIsSubmitting (b : bool)
| setPaymentInfo (p : Draft.t)
| toast (title description variant : string)
| router_push (path : string)
| saveGifting (r : Gifting.t)
| setTimeout (ms : Z)
| console_log (msg arg : string)
| console_error (msg : string) (error : Fault)
| uncaught (f : Fault).

(** A block of statements either runs to its end or throws. *)
Inductive Completion (A : Type) : Type :=
| Normal (a : A)
| Thrown (f : Fault).
Arguments Normal {A} a.
Arguments Thrown {A} f.

(** Statements: the calls made so far, and how the block ended. *)
Definition Eff (A : Type) : Type := (list Action * Completion A)%type.

Definition ret {A : Type} (a : A) : Eff A := ([], Normal a).

Definition bind {A B : Type} (m : Eff A) (k : A -> Eff B) : Eff B :=
  match m with
  | (l, Normal a) => let (l', c) := k a in ((l ++ l')%list, c)
  | (l, Thrown f) => (l, Thrown f)
  end.

Definition emit (a : Action) : Eff unit := ([a], Normal tt).

Definition call {A : Type} (o : Outcome A) : Eff A :=
  match o with
  | Returns a => ret a
  | Throws f => ([], Thrown f)
  end.

(** [try { body } catch (error) { handler error }]. *)
Definition try_catch {A : Type} (body : Eff A) (handler : Fault -> Eff A) : Eff A :=
  match body with
  | (l, Normal a) => (l, Normal a)
  | (l, Thrown f) => let (l', c) := handler f in ((l ++ l')%list, c)
  end.

Notation "x <- m ;; k" := (bind m (fun x => k))
  (at level 61, m at next level, right associativity).
Notation "m ;; k" := (bind m (fun _ => k))
  (at level 61, right associativity).

(** Where [handleConfirm] stands when it gives control back: at its end, or
    at [await saveGifting(r)]. *)
Inductive Suspension : Type :=
| Finished
| Awaiting (r : Gifting.t).

Definition error_title : string := "エラー".
Definition login_required : string := "ログインが必要です".
Definition save_failed : string := "ギフティングの保存に失敗しました".
Definition processing_failed : string := "ギフティングの処理中にエラーが発生しました".
Definition destructive : string := "destructive".

Section Page.

Variable params : Params.t.

Definition eventId : Num := Number_parseInt (Params.id params).
Definition performerId : Num := Number_parseInt (Params.performerId params).

(** [events[params.id] || { id: eventId, title: ... }]. *)
Definition event : Member :=
  match events_get (Params.id params) with
  | Some m => m
  | None => Entry {| Event.id := eventId; Event.title := placeholder_title |}
  end.

Definition draftEntryUrl : string :=
  "/events/" ++ Number_toString eventId ++ "/performers/" ++ Number_toString performerId.

Definition thanksUrl : string :=
  "/events/" ++ Number_toString eventId ++ "/performers/"
  ++ Number_toString performerId ++ "/thanks".


(** *** The mount effect *)

(** The body of [useEffect]: [info] is what [getPaymentInfo()] returns. *)
Definition initialize (info : option Draft.t) : Eff unit :=
  match info with
  | Some info =>
      emit (setPaymentInfo {| Draft.performerName := Draft.performerName info;
                              Draft.amount := Draft.amount info;
                              Draft.comment := Draft.comment info |})
  | None => emit (router_push draftEntryUrl)
  end.

(** *** [handleConfirm] *)

(** The object literal passed to [saveGifting]. *)
Definition record (session : Session.t) (paymentInfo : Draft.t) : Gifting.t :=
  {| Gifting.user_id := Session.email session;
     Gifting.user_name := Session.name session;
     Gifting.artist_id := "artist-" ++ Number_toString performerId;
     Gifting.artist_name := Draft.performerName paymentInfo;
     Gifting.event_id := eventId;
     Gifting.event_name := member_title event;
     Gifting.amount := Number_parseInt (Draft.amount paymentInfo);
     Gifting.comment := or_undefined (Draft.comment paymentInfo) |}.

(** The [catch] clause. *)
Definition catch_clause (error : Fault) : Eff unit :=
  emit (console_error "Error saving gifting:" error) ;;
  emit (toast error_title processing_failed destructive) ;;
  emit (setIsSubmitting false).

(** The [try] block up to the [await]. *)
Definition try_until_await (paymentInfo : option Draft.t)
    (getUserSession : Outcome (option Session.t)) : Eff Suspension :=
  session <- call getUserSession ;;
  match session with
  | None =>
      emit (toast error_title login_required destructive) ;;
      emit (router_push "/login") ;;
      ret Finished
  | Some session =>
      match paymentInfo with
      | Some paymentInfo =>
          emit (saveGifting (record session paymentInfo)) ;;
          ret (Awaiting (record session paymentInfo))
      | None => ret Finished
      end
  end.

(** [handleConfirm] from its first line to the [await] or to its end.
    [isSubmitting] and [paymentInfo] are the values of the render the handler
    was created in. *)
Definition handleConfirm (isSubmitting : bool) (paymentInfo : option Draft.t)
    (getUserSession : Outcome (option Session.t)) : Eff Suspension :=
  if isSubmitting then ret Finished
  else
    emit (setIsSubmitting true) ;;
    try_catch (try_until_await paymentInfo getUserSession)
              (fun error => catch_clause error ;; ret Finished).

(** The [try] block from the [await] on; [settled] is how the promise of
    [saveGifting] settles. *)
Definition try_after_await (settled : Outcome SaveResult.t) : Eff unit :=
  result <- call settled ;;
  if negb (SaveResult.success result) then
    emit (toast error_title (or_default (SaveResult.error result) save_failed) destructive) ;;
    emit (setIsSubmitting false)
  else
    emit (setTimeout 500).

(** [handleConfirm] resumed after the [await]. *)
Definition handleConfirm_resume (settled : Outcome SaveResult.t) : Eff unit :=
  try_catch (try_after_await settled) catch_clause.

(** The callback given to [setTimeout]. *)
Definition timeout_callback : Eff unit :=
  emit (console_log "Navigating to:" thanksUrl) ;;
  emit (router_push thanksUrl).

End Page.

(** ** One mounted instance of the page *)

(** The component state ([isSubmitting], [paymentInfo]) together with what
    is outstanding on its behalf: the [saveGifting] calls that have not
    settled, oldest first, and the delays of the timers that have not fired. *)
Record State : Type := {
  isSubmitting : bool;
  paymentInfo : option Draft.t;
  inflight : list Gifting.t;
  timers : list Z
}.

(** The state of the first render: [useState(false)], [useState(null)]. *)
Definition initial : State :=
  {| isSubmitting := false; paymentInfo := None; inflight := []; timers := [] |}.

(** The effect of one call on the instance. *)
Definition commit (s : State) (a : Action) : State :=
  match a with
  | setIsSubmitting b =>
      {| isSubmitting := b; paymentInfo := paymentInfo s;
         inflight := inflight s; timers := timers s |}
  | setPaymentInfo p =>
      {| isSubmitting := isSubmitting s; paymentInfo := Some p;
         inflight := inflight s; timers := timers s |}
  | saveGifting r =>
      {| isSubmitting := isSubmitting s; paymentInfo := paymentInfo s;
         inflight := (inflight s ++ [r])%list; timers := timers s |}
  | setTimeout ms =>
      {| isSubmitting := isSubmitting s; paymentInfo := paymentInfo s;
         inflight := inflight s; timers := (timers s ++ [ms])%list |}
  | _ => s
  end.

(** The calls of a handler, with a fault that leaves it made visible. *)
Definition finish {A : Type} (e : Eff A) : list Action :=
  match e with
  | (l, Normal _) => l
  | (l, Thrown f) => (l ++ [uncaught f])%list
  end.

Fixpoint remove_nth {A : Type} (n : nat) (l : list A) : list A :=
  match l, n with
  | [], _ => []
  | _ :: r, O => r
  | x :: r, S n => x :: remove_nth n r
  end.

(** What happens to a mounted page: a confirmation, with what
    [getUserSession] does at that moment; the settlement of the [n]-th
    outstanding [saveGifting] call; the firing of the oldest timer. *)
Inductive Input : Type :=
| confirm (getUserSession : Outcome (option Session.t))
| settle (n : nat) (settled : Outcome SaveResult.t)
| timer_fires.

Section Instance.

Variable params : Params.t.

(** Mounting: the first render, then the effect. *)
Definition mount (getPaymentInfo : option Draft.t) : State * list Action :=
  let acts := finish (initialize params getPaymentInfo) in
  (fold_left commit acts initial, acts).

(** One input met by a page whose latest render is up to date, so that the
    constants [isSubmitting] and [paymentInfo] of the handler are the
    committed ones: the calls made, and the state afterwards.  An input that
    names no outstanding call or timer changes nothing.  [deliver] below is
    the general case, where the latest render may be behind the state. *)
Definition step (s : State) (i : Input) : State * list Action :=
  match i with
  | confirm getUserSession =>
      let acts :=
        finish (handleConfirm params (isSubmitting s) (paymentInfo s) getUserSession) in
      (fold_left commit acts s, acts)
  | settle n settled =>
      match nth_error (inflight s) n with
      | Some _ =>
          let acts := finish (handleConfirm_resume settled) in
          (fold_left commit acts
             {| isSubmitting := isSubmitting s; paymentInfo := paymentInfo s;
                inflight := remove_nth n (inflight s); timers := timers s |},
           acts)
      | None => (s, [])
      end
  | timer_fires =>
      match timers s with
      | _ :: rest =>
          let acts := finish (timeout_callback params) in
          (fold_left commit acts
             {| isSubmitting := isSubmitting s; paymentInfo := paymentInfo s;
                inflight := inflight s; timers := rest |},
           acts)
      | [] => (s, [])
      end
  end.

Fixpoint run (s : State) (inputs : list Input) : State * list Action :=
  match inputs with
  | [] => (s, [])
  | i :: rest =>
      let (s1, a1) := step s i in
      let (s2, a2) := run s1 rest in
      (s2, (a1 ++ a2)%list)
  end.

End Instance.

(** ** Renders *)

(** A mounted page as React holds it: the committed state, and the state as
    it was at the latest render.  [handleConfirm] is created anew by every
    render, and the [isSubmitting] and [paymentInfo] it reads are the
    constants of the render that created it; the view is that render's
    too. *)
Record Page : Type := { committed : State; rendered : State }.

(** What happens to a page: an input reaches it, or React renders it again
    from the committed state. *)
Inductive Event : Type :=
| dispatch (i : Input)
| rerender.

Section Renders.

Variable params : Params.t.

(** The first render, from the initial state, followed by the mount effect:
    what the effect sets is committed but not yet rendered. *)
Definition first_render (getPaymentInfo : option Draft.t) : Page * list Action :=
  ({| committed := fst (mount params getPaymentInfo); rendered := initial |},
   snd (mount params getPaymentInfo)).

(** One event.  A confirmation runs the handler of the latest render; the
    setters it calls change the committed state only.  The resumption after
    the [await] and the timer callback read none of the two constants. *)
Definition deliver (pg : Page) (e : Event) : Page * list Action :=
  match e with
  | rerender => ({| committed := committed pg; rendered := committed pg |}, [])
  | dispatch (confirm getUserSession) =>
      let acts :=
        finish (handleConfirm params (isSubmitting (rendered pg))
                  (paymentInfo (rendered pg)) getUserSession) in
      ({| committed := fold_left commit acts (committed pg);
          rendered := rendered pg |}, acts)
  | dispatch i =>
      let (s, acts) := step params (committed pg) i in
      ({| committed := s; rendered := rendered pg |}, acts)
  end.

Fixpoint play (pg : Page) (events : list Event) : Page * list Action :=
  match events with
  | [] => (pg, [])
  | e :: rest =>
      let (pg1, a1) := deliver pg e in
      let (pg2, a2) := play pg1 rest in
      (pg2, (a1 ++ a2)%list)
  end.

End Renders.

(** Every confirmation of [events] meets an up-to-date render: React has
    rendered again since the last input before it.  [current] tells whether
    the render is up to date at the start. *)
Fixpoint up_to_date (current : bool) (events : list Event) : bool :=
  match events with
  | [] => true
  | rerender :: rest => up_to_date true rest
  | dispatch (confirm _) :: rest => current && up_to_date false rest
  | dispatch _ :: rest => up_to_date false rest
  end.

(** The inputs among the events, in order. *)
Fixpoint inputs_of (events : list Event) : list Input :=
  match events with
  | [] => []
  | dispatch i :: rest => i :: inputs_of rest
  | rerender :: rest => inputs_of rest
  end.

(** The records of the confirmations made under a session, each built from
    the session [getUserSession] returned to that confirmation and the draft
    [info], in the order of the confirmations. *)
Fixpoint offered (params : Params.t) (info : Draft.t) (events : list Event)
    : list Gifting.t :=
  match events with
  | [] => []
  | dispatch (confirm (Returns (Some session))) :: rest =>
      record params session info :: offered params info rest
  | _ :: rest => offered params info rest
  end.

(** [l] is [l'] with some elements left out. *)
Inductive subsequence {A : Type} : list A -> list A -> Prop :=
| subsequence_nil : subsequence [] []
| subsequence_keep (x : A) (l l' : list A) :
    subsequence l l' -> subsequence (x :: l) (x :: l')
| subsequence_skip (x : A) (l l' : list A) :
    subsequence l l' -> subsequence l (x :: l').

(** ** Observations on a list of calls *)

Definition is_saveGifting (a : Action) : bool :=
  match a with saveGifting _ => true | _ => false end.

Definition is_error_toast (a : Action) : bool :=
  match a with toast _ _ v => String.eqb v destructive | _ => false end.

Definition is_toast (a : Action) : bool :=
  match a with toast _ _ _ => true | _ => false end.

Definition is_router_push (a : Action) : bool :=
  match a with router_push _ => true | _ => false end.

Definition is_push_to (path : string) (a : Action) : bool :=
  match a with router_push p => String.eqb p path | _ => false end.

Definition is_uncaught (a : Action) : bool :=
  match a with uncaught _ => true | _ => false end.

Definition count (p : Action -> bool) (l : list Action) : nat :=
  List.length (filter p l).

(** The records handed to [saveGifting], in order. *)
Fixpoint saved (l : list Action) : list Gifting.t :=
  match l with
  | [] => []
  | saveGifting r :: rest => r :: saved rest
  | _ :: rest => saved rest
  end.

(** [s.includes(sub)]. *)
Fixpoint includes (sub s : string) : bool :=
  String.prefix sub s
  || match s with
     | String _ r => includes sub r
     | EmptyString => false
     end.

(** The catalog as the specification words it: a total function from the
    numeric event id to [{id, title}], defaulting to the placeholder when the
    id is unknown. *)
Definition spec_lookupEvent (eventId : Num) : Event.t :=
  match find (fun kv : string * Event.t =>
                match Event.id (snd kv), eventId with
                | Int a, Int b => Z.eqb a b
                | _, _ => false
                end) events with
  | Some kv => snd kv
  | None => {| Event.id := eventId; Event.title := placeholder_title |}
  end.

(** The ids the catalog holds. *)
Definition catalog_ids : list Num := map (fun kv => Event.id (snd kv)) events.

(** The delays handed to [setTimeout], in order. *)
Fixpoint delays (l : list Action) : list Z :=
  match l with
  | [] => []
  | setTimeout ms :: rest => ms :: delays rest
  | _ :: rest => delays rest
  end.

(** A string of [n] zeros. *)
Fixpoint zeros (n : nat) : string :=
  match n with
  | O => EmptyString
  | S n' => String "0" (zeros n')
  end.

(** ** A concrete visit: event 2, performer 7 *)

Definition example_params : Params.t :=
  {| Params.id := "2"; Params.performerId := "7" |}.

Definition example_draft : Draft.t :=
  {| Draft.performerName := "Aoi"; Draft.amount := "3000";
     Draft.comment := "頑張って" |}.

Definition example_session : Session.t :=
  {| Session.email := "u1"; Session.name := "Taro" |}.

(** Event 2, performer 7: a confirmation on a fresh render, its success and
    the timer. *)
Definition example_events : list Event :=
  [rerender; dispatch (confirm (Returns (Some example_session)));
   dispatch (settle 0 (Returns {| SaveResult.success := true;
                                  SaveResult.error := None |}));
   dispatch timer_fires].

(** The same visit, up to the confirmation. *)
Definition example_confirmed : list Event :=
  [rerender; dispatch (confirm (Returns (Some example_session)))].

(** The same visit, with the call rejected. *)
Definition example_rejected : list Event :=
  [rerender; dispatch (confirm (Returns (Some example_session)));
   dispatch (settle 0 (Throws "offline"))].

(** ** Invariant and proof tools *)

(** No call is outstanding, or exactly one is and the flag is set. *)
Definition guarded (s : State) : Prop :=
  inflight s = [] \/ (isSubmitting s = true /\ exists r, inflight s = [r]).

(** The characters a decimal numeral is written with. *)
Definition decimal_chars : list ascii :=
  ["0"; "1"; "2"; "3"; "4"; "5"; "6"; "7"; "8"; "9"]%char.

(** Case analysis on every string comparison of the goal. *)
Ltac split_keys :=
  repeat match goal with
  | |- context [String.eqb ?a ?b] =>
      destruct (String.eqb_spec a b); [subst; try discriminate; try reflexivity|]
  end.

(** ** The view *)

(** What the component returns.  Only what depends on the state or the route
    is kept: the loading text, or the confirmation card with its two links,
    the three rows of the draft and the confirm button.  [amount] is the
    number whose [toLocaleString()] is printed before the yen sign. *)
Module View.
Record confirmation : Type := {
  backHref : string;
  performerName : string;
  amount : Num;
  comment : option string;
  disabled : bool;
  label : string;
  editHref : string
}.
Inductive t : Type :=
| Loading (text : string)
| Confirmation (v : confirmation).
End View.

Definition loading_text : string := "読み込み中...".
Definition label_submitting : string := "処理中...".
Definition label_idle : string := "ギフティングする".

(** The render of the component in state [s]. *)
Definition render (params : Params.t) (s : State) : View.t :=
  match paymentInfo s with
  | None => View.Loading loading_text
  | Some paymentInfo =>
      View.Confirmation
        {| View.backHref := draftEntryUrl params;
           View.performerName := Draft.performerName paymentInfo;
           View.amount := Number_parseInt (Draft.amount paymentInfo);
           View.comment := or_undefined (Draft.comment paymentInfo);
           View.disabled := isSubmitting s;
           View.label := if isSubmitting s then label_submitting else label_idle;
           View.editHref := draftEntryUrl params |}
  end.

(** ** Observations on inputs and calls *)

Definition is_setTimeout (a : Action) : bool :=
  match a with setTimeout _ => true | _ => false end.


(** A settlement that carries a failure result, or a rejection. *)
Definition settles_failure (i : Input) : bool :=
  match i with
  | settle _ (Returns r) => negb (SaveResult.success r)
  | settle _ (Throws _) => true
  | _ => false
  end.

(** The paths handed to [router.push], in order. *)
Fixpoint pushes (l : list Action) : list string :=
  match l with
  | [] => []
  | router_push p :: rest => p :: pushes rest
  | _ :: rest => pushes rest
  end.

(** The toasts made, in order, as (title, description, variant). *)
Fixpoint toasts (l : list Action) : list (string * string * string) :=
  match l with
  | [] => []
  | toast t d v :: rest => (t, d, v) :: toasts rest
  | _ :: rest => toasts rest
  end.

(** The integers a JavaScript number holds exactly and prints in plain
    decimal digits; [NaN] prints as itself.  Negative zero prints as [0] and
    an infinity as a word, neither of which reads back as itself. *)
Definition safe_integer (n : Num) : Prop :=
  match n with
  | NaN => True
  | Int z => - (2 ^ 53 - 1) <= z <= 2 ^ 53 - 1
  | NegZero | Infinity | NegInfinity => False
  end.

(** The texts a toast of the page can carry, given the inputs received: one
    of the three fixed texts, or the non-empty [error] of a failure result. *)
Definition toast_text (inputs : list Input) (d : string) : Prop :=
  d = login_required \/ d = processing_failed \/ d = save_failed
  \/ exists n r, In (settle n (Returns r)) inputs
                 /\ SaveResult.success r = false
                 /\ SaveResult.error r = Some d /\ d <> "".

(** * Verification *)

(** ** [Number.parseInt] on sample arguments *)

Example parseInt_3000 : Number_parseInt "3000" = Int 3000.
Proof. reflexivity. Qed.

Example parseInt_leading_zero : Number_parseInt "02" = Int 2.
Proof. reflexivity. Qed.

Example parseInt_prefix : Number_parseInt "  -12px" = Int (-12).
Proof. reflexivity. Qed.

Example parseInt_hex : Number_parseInt "0x1F" = Int 31.
Proof. reflexivity. Qed.

Example parseInt_no_digit : Number_parseInt "abc" = NaN.
Proof. reflexivity. Qed.

(** *** [parseInt] reads back what a template literal prints *)


Lemma trimStart_no_space (c : ascii) (rest : string) :
  In c ("-"%char :: decimal_chars) -> trimStart (String c rest) = String c rest.
Proof.
  intros H. cbn in H.
  repeat (destruct H as [<- | H];
          [destruct rest as [|c2 [|c3 r3]]; reflexivity|]).
  contradiction.
Qed.

Lemma parse_digits_acc (d : Decimal.uint) :
  forall acc : positive,
    parse_digits 10 (Some (Z.pos acc)) (NilEmpty.string_of_uint d)
    = Some (Z.pos (Pos.of_uint_acc d acc)).
Proof.
  induction d; intros acc; cbn [NilEmpty.string_of_uint parse_digits Pos.of_uint_acc];
    [reflexivity|..];
    match goal with
    | |- context [radix_digit 10 ?c] =>
        change (radix_digit 10 c) with (Some (Z.of_nat (nat_of_ascii c) - 48))
    end;
    rewrite <- IHd; do 2 f_equal; rewrite Pos2Z.inj_add, Pos2Z.inj_mul;
    match goal with
    | |- context [Z.of_nat (nat_of_ascii ?c)] =>
        let v := eval cbv in (Z.of_nat (nat_of_ascii c)) in
        change (Z.of_nat (nat_of_ascii c)) with v
    end; lia.
Qed.

Lemma parse_digits_zero (d : Decimal.uint) :
  parse_digits 10 (Some 0) (NilEmpty.string_of_uint d)
  = Some (Z.of_N (Pos.of_uint d)).
Proof.
  induction d; cbn [NilEmpty.string_of_uint parse_digits Pos.of_uint];
    [reflexivity | exact IHd |..]; apply parse_digits_acc.
Qed.

Lemma parse_digits_uint (d : Decimal.uint) :
  d <> Decimal.Nil ->
  parse_digits 10 None (NilEmpty.string_of_uint d) = Some (Z.of_N (Pos.of_uint d)).
Proof.
  intros N. rewrite <- parse_digits_zero. destruct d; [congruence|..]; reflexivity.
Qed.

Lemma parseInt_unsigned (d : Decimal.uint) :
  d <> Decimal.Nil ->
  Number_parseInt (NilEmpty.string_of_uint d) = of_integer 1 (Z.of_N (Pos.of_uint d))
  /\ Number_parseInt (String "-" (NilEmpty.string_of_uint d))
     = of_integer (-1) (Z.of_N (Pos.of_uint d)).
Proof.
  intros N. pose proof (parse_digits_uint d N) as P.
  unfold Number_parseInt.
  destruct d as [|d|d|d|d|d|d|d|d|d|d]; [congruence|..];
    destruct d; cbn [NilEmpty.string_of_uint] in *;
    rewrite !trimStart_no_space by (cbn; auto 15);
    cbv beta iota zeta; rewrite P; (split; reflexivity).
Qed.

(** Below [2 ^ 53] an integer is its own double. *)
Lemma round_magnitude_small (m : Z) : 0 < m < two53 -> round_magnitude m = m.
Proof.
  intros [P L]. unfold round_magnitude.
  assert (Z.log2 m < 53) by (apply Z.log2_lt_pow2; [exact P | exact L]).
  cbv zeta. destruct (Z.leb_spec (Z.log2 m + 1) 53); [reflexivity | lia].
Qed.

Lemma of_integer_small (m : Z) :
  0 < m < two53 -> of_integer 1 m = Int m /\ of_integer (-1) m = Int (- m).
Proof.
  intros H. unfold of_integer. rewrite (round_magnitude_small m H).
  assert (L : two53 < double_limit) by reflexivity.
  destruct (Z.eqb_spec m 0); [lia|].
  destruct (Z.leb_spec double_limit m); [lia|].
  split; f_equal; lia.
Qed.

Lemma decimal_pos (p : positive) :
  decimal (Z.pos p) = NilEmpty.string_of_uint (Pos.to_uint p).
Proof.
  unfold decimal. cbn [Z.to_int NilZero.string_of_int NilZero.string_of_uint].
  pose proof (DecimalPos.Unsigned.to_uint_nonnil p) as N.
  destruct (Pos.to_uint p); [congruence | reflexivity ..].
Qed.

(** Printing an integer of magnitude below [2 ^ 53] and reading it back
    gives the same number. *)
Lemma parseInt_toString (z : Z) :
  - two53 < z < two53 -> Number_parseInt (Number_toString (Int z)) = Int z.
Proof.
  intros R. destruct z as [|p|p]; [reflexivity|..];
    pose proof (DecimalPos.Unsigned.to_uint_nonnil p) as N;
    destruct (parseInt_unsigned _ N) as [U V];
    rewrite DecimalPos.Unsigned.of_to in U, V;
    destruct (of_integer_small (Z.pos p) ltac:(lia)) as [A B];
    cbn [Z.of_N] in U, V.
  - unfold Number_toString, print_magnitude.
    destruct (Z.ltb_spec (Z.pos p) 0); [lia|].
    destruct (Z.ltb_spec (Z.pos p) two53); [|lia].
    rewrite decimal_pos. congruence.
  - unfold Number_toString, print_magnitude.
    destruct (Z.ltb_spec (Z.neg p) 0); [|lia].
    change (- Z.neg p) with (Z.pos p).
    destruct (Z.ltb_spec (Z.pos p) two53); [|lia].
    rewrite decimal_pos. cbn [append]. rewrite V. exact B.
Qed.

(** Within that range a number prints in plain decimal digits. *)
Lemma toString_decimal (z : Z) :
  - two53 < z < two53 -> Number_toString (Int z) = decimal z.
Proof.
  intros R. unfold Number_toString, print_magnitude.
  destruct (Z.ltb_spec z 0).
  - destruct (Z.ltb_spec (- z) two53); [|lia].
    destruct z as [|p|p]; try lia. change (- Z.neg p) with (Z.pos p).
    rewrite decimal_pos. unfold decimal.
    cbn [Z.to_int NilZero.string_of_int NilZero.string_of_uint].
    pose proof (DecimalPos.Unsigned.to_uint_nonnil p) as N.
    destruct (Pos.to_uint p); [congruence | reflexivity ..].
  - destruct (Z.ltb_spec z two53); [reflexivity | lia].
Qed.

(** ** Auxiliary facts *)

Lemma prefix_refl (s : string) : String.prefix s s = true.
Proof.
  induction s as [|c s IH]; simpl; [reflexivity|].
  destruct (ascii_dec c c); [assumption | congruence].
Qed.

Lemma includes_refl (s : string) : includes s s = true.
Proof. destruct s; simpl; [reflexivity|]. rewrite prefix_refl. destruct (ascii_dec a a); [reflexivity|congruence]. Qed.

Lemma includes_empty (s : string) : includes "" s = true.
Proof. destruct s; reflexivity. Qed.

Lemma includes_or_default (reason d : string) :
  includes reason (or_default (Some reason) d) = true.
Proof.
  destruct reason as [|c r]; [apply includes_empty | apply includes_refl].
Qed.

Lemma two53_value : two53 = 9007199254740992.
Proof. reflexivity. Qed.

Lemma safe_integer_range (z : Z) : safe_integer (Int z) -> - two53 < z < two53.
Proof.
  unfold safe_integer. rewrite two53_value.
  change (2 ^ 53) with 9007199254740992. lia.
Qed.

(** C4. Mounting the page when the draft source returns nothing makes one
    call in all: a navigation to the draft-entry path built from the event and
    performer ids, which is [/events/e/performers/q] in plain decimal digits
    when the ids are the safe integers [e] and [q]; [saveGifting] and [toast]
    are not called. *)
Theorem initialize_without_draft (params : Params.t) (e q : Z) :
  mount params None = (initial, [router_push (draftEntryUrl params)])
  /\ (eventId params = Int e -> performerId params = Int q ->
      safe_integer (Int e) -> safe_integer (Int q) ->
      draftEntryUrl params = "/events/" ++ decimal e ++ "/performers/" ++ decimal q)
  /\ draftEntryUrl params
     = "/events/" ++ Number_toString (Number_parseInt (Params.id params))
       ++ "/performers/" ++ Number_toString (Number_parseInt (Params.performerId params))
  /\ count is_router_push (snd (mount params None)) = 1%nat
  /\ count (is_push_to (draftEntryUrl params)) (snd (mount params None)) = 1%nat
  /\ count is_saveGifting (snd (mount params None)) = 0%nat
  /\ count is_toast (snd (mount params None)) = 0%nat.
Proof.
  repeat split.
  - intros E Q Se Sq. unfold draftEntryUrl. rewrite E, Q.
    now rewrite !toString_decimal by (apply safe_integer_range; assumption).
  - unfold mount, count; simpl. now rewrite String.eqb_refl.
Qed.

(** C4 on the visit of event 2, performer 7: the path is
    [/events/2/performers/7]. *)
Lemma initialize_without_draft_witness :
  eventId example_params = Int 2
  /\ performerId example_params = Int 7
  /\ safe_integer (Int 2) /\ safe_integer (Int 7)
  /\ draftEntryUrl example_params = "/events/2/performers/7".
Proof.
  assert (A : safe_integer (Int 2)) by (vm_compute; split; discriminate).
  assert (B : safe_integer (Int 7)) by (vm_compute; split; discriminate).
  split; [reflexivity|]. split; [reflexivity|]. split; [exact A|]. split; [exact B|].
  apply (initialize_without_draft example_params 2 7); first [reflexivity | assumption].
Defined.

Lemma confirm_ignored (params : Params.t) (s : State) (g : Outcome (option Session.t)) :
  isSubmitting s = true -> step params s (confirm g) = (s, []).
Proof.
  intros H. unfold step, handleConfirm. rewrite H. reflexivity.
Qed.

(** C6. The record handed to [saveGifting] has no comment when the draft
    comment is the empty string, and carries the draft comment unchanged when
    it is not empty. *)
Theorem empty_comment_is_omitted (params : Params.t) (session : Session.t)
    (performerName amount : string) :
  (let p := {| Draft.performerName := performerName; Draft.amount := amount;
               Draft.comment := "" |} in
   saved (fst (handleConfirm params false (Some p) (Returns (Some session))))
   = [record params session p]
   /\ Gifting.comment (record params session p) = None
   /\ Gifting.comment (record params session p) <> Some "")
  /\ (forall (c : ascii) (rest : string),
        let p := {| Draft.performerName := performerName; Draft.amount := amount;
                    Draft.comment := String c rest |} in
        saved (fst (handleConfirm params false (Some p) (Returns (Some session))))
        = [record params session p]
        /\ Gifting.comment (record params session p) = Some (String c rest)).
Proof.
  split; [|intros c rest]; simpl; repeat split; discriminate.
Qed.

(** C1, as the code has it. With no session, [handleConfirm] makes one error
    toast and one navigation to [/login] and does not call [saveGifting], but
    it has set [isSubmitting] before the session check and returns without
    clearing it: every later confirmation on the instance is ignored. *)
Theorem confirm_without_session_keeps_flag (params : Params.t) (p : Draft.t)
    (tm : list Z) :
  let idle := {| isSubmitting := false; paymentInfo := Some p;
                 inflight := []; timers := tm |} in
  let stuck := {| isSubmitting := true; paymentInfo := Some p;
                  inflight := []; timers := tm |} in
  step params idle (confirm (Returns None))
  = (stuck, [setIsSubmitting true;
             toast error_title login_required destructive;
             router_push "/login"])
  /\ count is_error_toast (snd (step params idle (confirm (Returns None)))) = 1%nat
  /\ count (is_push_to "/login") (snd (step params idle (confirm (Returns None)))) = 1%nat
  /\ count is_router_push (snd (step params idle (confirm (Returns None)))) = 1%nat
  /\ count is_saveGifting (snd (step params idle (confirm (Returns None)))) = 0%nat
  /\ forall g, step params stuck (confirm g) = (stuck, []).
Proof.
  repeat split.
Qed.

(** C3. When [saveGifting] resolves to a failure carrying a reason, the
    resumed handler makes one error toast whose description is that reason
    (the generic text when the reason is empty), navigates nowhere, sets no
    timer, and clears [isSubmitting]: the next confirmation is accepted and
    calls [saveGifting] again. *)
Theorem save_failure_is_retryable (params : Params.t) (p : Draft.t)
    (r : Gifting.t) (tm : list Z) (reason : string) (session : Session.t) :
  let waiting := {| isSubmitting := true; paymentInfo := Some p;
                    inflight := [r]; timers := tm |} in
  let idle := {| isSubmitting := false; paymentInfo := Some p;
                 inflight := []; timers := tm |} in
  let failure := Returns {| SaveResult.success := false;
                            SaveResult.error := Some reason |} in
  let description := or_default (Some reason) save_failed in
  step params waiting (settle 0 failure)
  = (idle, [toast error_title description destructive; setIsSubmitting false])
  /\ description = match reason with EmptyString => save_failed | _ => reason end
  /\ includes reason description = true
  /\ count is_error_toast (snd (step params waiting (settle 0 failure))) = 1%nat
  /\ count is_toast (snd (step params waiting (settle 0 failure))) = 1%nat
  /\ count is_router_push (snd (step params waiting (settle 0 failure))) = 0%nat
  /\ timers (fst (step params waiting (settle 0 failure))) = tm
  /\ saved (snd (step params idle (confirm (Returns (Some session)))))
     = [record params session p].
Proof.
  repeat split.
  - destruct reason; reflexivity.
  - apply includes_or_default.
Qed.

(** *** The double-submission flag *)

Lemma count_app (f : Action -> bool) (a b : list Action) :
  count f (a ++ b)%list = (count f a + count f b)%nat.
Proof. unfold count. now rewrite filter_app, length_app. Qed.


Lemma guarded_mount (params : Params.t) (info : option Draft.t) :
  guarded (fst (mount params info)).
Proof. left. destruct info; reflexivity. Qed.

Lemma guarded_step (params : Params.t) (s : State) (i : Input) :
  guarded s -> guarded (fst (step params s i)).
Proof.
  intros G. destruct s as [sub pinfo infl tm]. destruct i as [g | n settled | ].
  - destruct sub.
    + rewrite confirm_ignored by reflexivity. exact G.
    + destruct G as [E | [E _]]; simpl in E; [subst infl | discriminate].
      destruct g as [[sess|] | f]; destruct pinfo as [p|]; simpl;
        try (left; reflexivity).
      right. split; [reflexivity | eexists; reflexivity].
  - destruct G as [E | [S [r E]]]; simpl in E; subst infl.
    + destruct n; simpl; left; reflexivity.
    + destruct n as [|n].
      * destruct settled as [[[] e] | f]; simpl; left; reflexivity.
      * simpl in S. subst sub.
        destruct n; simpl; right; (split; [reflexivity | exists r; reflexivity]).
  - destruct tm as [|t tm]; simpl; exact G.
Qed.

Lemma guarded_run (params : Params.t) (inputs : list Input) :
  forall s, guarded s -> guarded (fst (run params s inputs)).
Proof.
  induction inputs as [|i rest IH]; intros s G; simpl; [exact G|].
  pose proof (guarded_step params s i G) as G1.
  destruct (step params s i) as [s1 a1]. simpl in G1.
  specialize (IH s1 G1). destruct (run params s1 rest) as [s2 a2]. exact IH.
Qed.

(** Flag set and nothing outstanding: the instance stays that way, and
    [saveGifting] is not called again. *)
Lemma locked_step (params : Params.t) (s : State) (i : Input) :
  isSubmitting s = true -> inflight s = [] ->
  isSubmitting (fst (step params s i)) = true
  /\ inflight (fst (step params s i)) = []
  /\ paymentInfo (fst (step params s i)) = paymentInfo s
  /\ count is_saveGifting (snd (step params s i)) = 0%nat.
Proof.
  intros S I. destruct s as [sub pinfo infl tm]. simpl in S, I. subst sub infl.
  destruct i as [g | n settled | ].
  - rewrite confirm_ignored by reflexivity. repeat split.
  - destruct n; simpl; repeat split.
  - destruct tm; simpl; repeat split.
Qed.

Lemma locked_run (params : Params.t) (inputs : list Input) :
  forall s, isSubmitting s = true -> inflight s = [] ->
  isSubmitting (fst (run params s inputs)) = true
  /\ inflight (fst (run params s inputs)) = []
  /\ paymentInfo (fst (run params s inputs)) = paymentInfo s
  /\ count is_saveGifting (snd (run params s inputs)) = 0%nat.
Proof.
  induction inputs as [|i rest IH]; intros s S I; simpl; [repeat split; assumption|].
  destruct (locked_step params s i S I) as (S1 & I1 & P1 & C1).
  destruct (step params s i) as [s1 a1]. simpl in S1, I1, P1, C1.
  destruct (IH s1 S1 I1) as (S2 & I2 & P2 & C2).
  destruct (run params s1 rest) as [s2 a2]. simpl in *.
  repeat split; try assumption.
  - congruence.
  - rewrite count_app, C1, C2. reflexivity.
Qed.

(** While the flag is set, confirmations alone do nothing at all. *)
Lemma confirms_ignored (params : Params.t) (gs : list (Outcome (option Session.t))) :
  forall s, isSubmitting s = true -> run params s (map confirm gs) = (s, []).
Proof.
  induction gs as [|g gs IH]; intros s S; cbn [run map]; [reflexivity|].
  rewrite confirm_ignored by assumption. rewrite IH by assumption. reflexivity.
Qed.

(** C9. A confirmation made while [paymentInfo] is still null and a session
    exists sets [isSubmitting] and does nothing else: no [saveGifting], no
    toast, no navigation, nothing left outstanding.  Nothing clears the flag
    afterwards, so whatever happens next, every confirmation is ignored. *)
Theorem confirm_without_draft_locks (params : Params.t) (session : Session.t)
    (tm : list Z) (inputs : list Input) :
  let unloaded := {| isSubmitting := false; paymentInfo := None;
                     inflight := []; timers := tm |} in
  let locked := {| isSubmitting := true; paymentInfo := None;
                   inflight := []; timers := tm |} in
  step params unloaded (confirm (Returns (Some session)))
  = (locked, [setIsSubmitting true])
  /\ isSubmitting (fst (run params locked inputs)) = true
  /\ count is_saveGifting (snd (run params locked inputs)) = 0%nat
  /\ forall g,
       step params (fst (run params locked inputs)) (confirm g)
       = (fst (run params locked inputs), []).
Proof.
  intros unloaded locked.
  destruct (locked_run params inputs locked eq_refl eq_refl) as (S & _ & _ & C).
  repeat split; try assumption.
  intros g. apply confirm_ignored. exact S.
Qed.


(** *** Faults *)

Lemma handleConfirm_completes (params : Params.t) (sub : bool)
    (pinfo : option Draft.t) (g : Outcome (option Session.t)) :
  exists l k, handleConfirm params sub pinfo g = (l, Normal k).
Proof.
  destruct sub; [do 2 eexists; reflexivity|].
  destruct g as [[sess|] | f]; [destruct pinfo| |]; do 2 eexists; reflexivity.
Qed.

Lemma handleConfirm_resume_completes (settled : Outcome SaveResult.t) :
  exists l, handleConfirm_resume settled = (l, Normal tt).
Proof.
  destruct settled as [[[] e] | f]; eexists; reflexivity.
Qed.

Lemma step_never_uncaught (params : Params.t) (s : State) (i : Input) :
  count is_uncaught (snd (step params s i)) = 0%nat.
Proof.
  destruct s as [sub pinfo infl tm]. destruct i as [g | n settled |].
  - destruct sub; [reflexivity|].
    destruct g as [[sess|] | f]; [destruct pinfo| |]; reflexivity.
  - unfold step. cbn [inflight]. destruct (nth_error infl n); [|reflexivity].
    destruct settled as [[[] e] | f]; reflexivity.
  - destruct tm; reflexivity.
Qed.

(** C8. A fault thrown inside the [try] block, by [getUserSession] before
    the [await] or by [saveGifting] at it, ends in the [catch] clause: it is
    logged, one toast with the generic text is made, [isSubmitting] is
    cleared, so that the next confirmation is accepted; [handleConfirm] itself
    always completes normally and no input makes a fault leave a handler.
    The same holds of whatever statements stand in the [try] block, the
    building of the record included. *)
Theorem faults_are_caught (params : Params.t) (p : Draft.t) (r : Gifting.t)
    (tm : list Z) (f : Fault) (session : Session.t) :
  let waiting := {| isSubmitting := true; paymentInfo := Some p;
                    inflight := [r]; timers := tm |} in
  let idle := {| isSubmitting := false; paymentInfo := Some p;
                 inflight := []; timers := tm |} in
  let caught := [console_error "Error saving gifting:" f;
                 toast error_title processing_failed destructive;
                 setIsSubmitting false] in
  step params waiting (settle 0 (Throws f)) = (idle, caught)
  /\ step params idle (confirm (Throws f)) = (idle, setIsSubmitting true :: caught)
  /\ count is_error_toast caught = 1%nat
  /\ count is_router_push caught = 0%nat
  /\ saved (snd (step params idle (confirm (Returns (Some session)))))
     = [record params session p]
  /\ (forall sub pinfo g, exists l k,
        handleConfirm params sub pinfo g = (l, Normal k))
  /\ (forall settled, exists l, handleConfirm_resume settled = (l, Normal tt))
  /\ (forall s i, count is_uncaught (snd (step params s i)) = 0%nat)
  /\ (forall (body : Eff Suspension),
        exists l k,
          try_catch body (fun error => catch_clause error ;; ret Finished)
          = (l, Normal k))
  /\ (forall (l : list Action),
        try_catch (l, Thrown f) (fun error => catch_clause error ;; ret Finished)
        = ((l ++ caught)%list, Normal Finished)).
Proof.
  repeat split.
  - intros. apply handleConfirm_completes.
  - intros. apply handleConfirm_resume_completes.
  - intros. apply step_never_uncaught.
  - intros [l [k | g]]; do 2 eexists; reflexivity.
Qed.

(** *** The event table *)


(** Under a key that names a member of [Object.prototype] the lookup yields
    that member, which has no [title]; such a key does not parse. *)
Example inherited_member_has_no_title :
  let q := {| Params.id := "constructor"; Params.performerId := "7" |} in
  event q = Inherited /\ member_title (event q) = None /\ eventId q = NaN.
Proof. repeat split. Qed.

(** A key under which [events] holds an entry of its own parses to that
    entry's id, and is that id's decimal form. *)
Lemma own_property_events (key : string) (e : Event.t) :
  own_property events key = Some e ->
  Number_parseInt key = Event.id e /\ Number_toString (Event.id e) = key
  /\ In (Event.id e) catalog_ids.
Proof.
  unfold events; cbn [own_property]. split_keys;
    try (intros H; injection H as <-; cbv; repeat split; auto 6).
  discriminate.
Qed.

(** A member [events] inherits is never reached under a key that parses. *)
Lemma inherited_key_is_NaN (key : string) :
  existsb (String.eqb key) Object_prototype_keys = true -> Number_parseInt key = NaN.
Proof.
  unfold Object_prototype_keys; cbn [existsb]. split_keys. discriminate.
Qed.

Lemma unknown_event_lookup (key : string) (z : Z) :
  Number_parseInt key = Int z -> ~ In (Int z) catalog_ids -> events_get key = None.
Proof.
  intros P N. unfold events_get.
  destruct (own_property events key) as [e|] eqn:O.
  - destruct (own_property_events key e O) as (E & _ & I). exfalso. apply N. congruence.
  - destruct (existsb (String.eqb key) Object_prototype_keys) eqn:X; [|reflexivity].
    apply inherited_key_is_NaN in X. congruence.
Qed.

(** When the route's event id parses to a number the catalog does not
    hold, [event] is the placeholder [{id: eventId, title: "イベント"}], and a
    confirmation with a draft and a session still calls [saveGifting], with
    the placeholder as event name and every other field as usual. *)
Lemma unknown_event_gets_placeholder (params : Params.t) (z : Z)
    (p : Draft.t) (session : Session.t) :
  eventId params = Int z ->
  ~ In (Int z) catalog_ids ->
  let r := record params session p in
  event params = Entry {| Event.id := Int z; Event.title := placeholder_title |}
  /\ handleConfirm params false (Some p) (Returns (Some session))
     = ([setIsSubmitting true; saveGifting r], Normal (Awaiting r))
  /\ Gifting.event_name r = Some placeholder_title
  /\ Gifting.event_id r = Int z
  /\ Gifting.user_id r = Session.email session
  /\ Gifting.user_name r = Session.name session
  /\ Gifting.artist_id r = "artist-" ++ Number_toString (performerId params)
  /\ Gifting.artist_name r = Draft.performerName p
  /\ Gifting.amount r = Number_parseInt (Draft.amount p)
  /\ Gifting.comment r = or_undefined (Draft.comment p).
Proof.
  intros E N r.
  assert (V : event params = Entry {| Event.id := Int z; Event.title := placeholder_title |}).
  { unfold event. rewrite (unknown_event_lookup _ z E N). now rewrite E. }
  assert (T : Gifting.event_name (record params session p) = Some placeholder_title).
  { unfold record. cbn [Gifting.event_name]. now rewrite V. }
  subst r. repeat split; assumption.
Qed.

(** On a route segment that is the decimal form of its own value, the table
    lookup of the page agrees with the catalog function of the specification. *)
Lemma canonical_lookup (params : Params.t) :
  Number_toString (eventId params) = Params.id params ->
  member_title (event params) = Some (Event.title (spec_lookupEvent (eventId params))).
Proof.
  unfold event, eventId. destruct params as [key pid]. cbn [Params.id].
  intros C. unfold events_get.
  destruct (own_property events key) as [e|] eqn:O.
  - destruct (own_property_events key e O) as (E & _ & _). rewrite E.
    revert O. unfold events; cbn [own_property]. split_keys;
      try (intros H; injection H as <-; reflexivity). discriminate.
  - destruct (existsb (String.eqb key) Object_prototype_keys) eqn:X.
    + pose proof (inherited_key_is_NaN key X) as N. rewrite N in C.
      cbn [Number_toString] in C. subst key. discriminate X.
    + cbn [member_title Event.title]. f_equal.
      destruct (Number_parseInt key) as [|z| | |] eqn:P; try reflexivity.
      unfold spec_lookupEvent, events. cbn [find snd Event.id].
      repeat match goal with
      | |- context [Z.eqb ?a z] =>
          destruct (Z.eqb_spec a z); [subst z; vm_compute in C; subst key; discriminate|]
      end.
      reflexivity.
Qed.

(** Every safe integer event id, written in decimal in the route, is read
    back as itself: such a route segment is the decimal form of its own
    value. *)
Lemma decimal_segment_is_canonical (n : Z) (pid : string) :
  safe_integer (Int n) ->
  let params := {| Params.id := decimal n; Params.performerId := pid |} in
  eventId params = Int n /\ Number_toString (eventId params) = Params.id params.
Proof.
  intros S. apply safe_integer_range in S.
  unfold eventId; cbn [Params.id].
  rewrite <- (toString_decimal n S), (parseInt_toString n S). split; reflexivity.
Qed.

(** The draft amount, written as a safe integer in decimal, is saved as that
    integer. *)
Lemma parseInt_decimal (z : Z) :
  safe_integer (Int z) -> Number_parseInt (decimal z) = Int z.
Proof.
  intros S. apply safe_integer_range in S.
  rewrite <- (toString_decimal z S). apply parseInt_toString. exact S.
Qed.

(** C5, where the specified property fails. A draft whose comment is empty is saved with
    no comment at all, not with the draft's empty one; and under the route
    segment [02] the event id is 2, which the catalog holds, yet the saved
    event name is the placeholder and not the catalog title of event 2. *)
Lemma confirm_record_counterexample :
  (let p := {| Draft.performerName := "Aoi"; Draft.amount := "3000";
               Draft.comment := "" |} in
   saved (fst (handleConfirm example_params false (Some p)
                 (Returns (Some example_session))))
   = [record example_params example_session p]
   /\ Gifting.comment (record example_params example_session p)
      <> Some (Draft.comment p))
  /\ (let q := {| Params.id := "02"; Params.performerId := "7" |} in
      eventId q = Int 2
      /\ In (Int 2) catalog_ids
      /\ Event.title (spec_lookupEvent (eventId q)) = "5周年ライブin横アリ"
      /\ saved (fst (handleConfirm q false (Some example_draft)
                       (Returns (Some example_session))))
         = [record q example_session example_draft]
      /\ Gifting.event_name (record q example_session example_draft)
         = Some placeholder_title
      /\ Gifting.event_name (record q example_session example_draft)
         <> Some (Event.title (spec_lookupEvent (eventId q)))).
Proof.
  cbv zeta. repeat split; try discriminate.
  cbv. auto.
Qed.

(** C5, amended. A confirmation with a draft and a session calls
    [saveGifting] once, with a record whose amount is [parseInt] of the draft
    amount, whose artist id is [artist-] followed by the performer id, whose
    comment is the draft comment when that is not empty and absent when it
    is, and whose event name is the catalog's title for the event id (the
    placeholder for an unknown id) whenever the route segment is the decimal
    form of that id.  For a draft amount written as a safe integer the saved
    amount is that integer, and for safe performer and event ids the artist
    id and the thanks path carry them in plain decimal digits.  When the call
    resolves to a success the handler sets a timer, of a delay that is not
    negative, and navigates nowhere yet; when the timer fires, one navigation
    to the thanks path of the event and performer is made. *)
Theorem confirm_saves_record_then_thanks (params : Params.t) (p : Draft.t)
    (session : Session.t) (e : option string) :
  let r := record params session p in
  let mounted := fst (mount params (Some p)) in
  let success := Returns {| SaveResult.success := true; SaveResult.error := e |} in
  snd (step params mounted (confirm (Returns (Some session))))
  = [setIsSubmitting true; saveGifting r]
  /\ Gifting.amount r = Number_parseInt (Draft.amount p)
  /\ (forall a, safe_integer (Int a) -> Draft.amount p = decimal a ->
      Gifting.amount r = Int a)
  /\ Gifting.artist_id r
     = "artist-" ++ Number_toString (Number_parseInt (Params.performerId params))
  /\ (forall x q, eventId params = Int x -> performerId params = Int q ->
      safe_integer (Int x) -> safe_integer (Int q) ->
      Gifting.artist_id r = "artist-" ++ decimal q
      /\ thanksUrl params
         = "/events/" ++ decimal x ++ "/performers/" ++ decimal q ++ "/thanks")
  /\ Gifting.comment r
     = match Draft.comment p with EmptyString => None | c => Some c end
  /\ (Number_toString (eventId params) = Params.id params ->
      Gifting.event_name r = Some (Event.title (spec_lookupEvent (eventId params))))
  /\ snd (run params mounted [confirm (Returns (Some session)); settle 0 success])
     = [setIsSubmitting true; saveGifting r; setTimeout 500]
  /\ forallb (Z.leb 0)
       (delays (snd (run params mounted
                       [confirm (Returns (Some session)); settle 0 success]))) = true
  /\ snd (run params mounted
            [confirm (Returns (Some session)); settle 0 success; timer_fires])
     = [setIsSubmitting true; saveGifting r; setTimeout 500;
        console_log "Navigating to:" (thanksUrl params);
        router_push (thanksUrl params)]
  /\ thanksUrl params
     = "/events/" ++ Number_toString (eventId params) ++ "/performers/"
       ++ Number_toString (performerId params) ++ "/thanks"
  /\ count is_saveGifting
       (snd (run params mounted
               [confirm (Returns (Some session)); settle 0 success; timer_fires])) = 1%nat
  /\ count is_router_push
       (snd (run params mounted
               [confirm (Returns (Some session)); settle 0 success; timer_fires])) = 1%nat
  /\ count (is_push_to (thanksUrl params))
       (snd (run params mounted
               [confirm (Returns (Some session)); settle 0 success; timer_fires])) = 1%nat.
Proof.
  destruct p as [pn am cm]. cbv zeta.
  repeat match goal with |- _ /\ _ => split end; try reflexivity.
  - intros a S E. cbn [record Gifting.amount Draft.amount] in *. subst am.
    apply parseInt_decimal. exact S.
  - intros x q X Q Sx Sq. cbn [record Gifting.artist_id]. unfold thanksUrl.
    rewrite X, Q.
    rewrite !toString_decimal by (apply safe_integer_range; assumption).
    split; reflexivity.
  - destruct cm; reflexivity.
  - intros C. apply (canonical_lookup params C).
  - unfold count. cbn [run step mount fst snd]. simpl.
    now rewrite String.eqb_refl.
Qed.

(** C5 on the visit of event 2, performer 7, with the amount [3000]: the
    route segment [2] is in decimal form and the saved event name is the
    catalog title of event 2; the amount saved is 3000, the artist id
    [artist-7] and the thanks path [/events/2/performers/7/thanks]. *)
Lemma confirm_saves_record_then_thanks_witness :
  (Number_toString (eventId example_params) = Params.id example_params
   /\ Gifting.event_name (record example_params example_session example_draft)
      = Some "5周年ライブin横アリ")
  /\ (safe_integer (Int 3000) /\ Draft.amount example_draft = decimal 3000
      /\ Gifting.amount (record example_params example_session example_draft)
         = Int 3000)
  /\ (eventId example_params = Int 2 /\ performerId example_params = Int 7
      /\ safe_integer (Int 2) /\ safe_integer (Int 7)
      /\ Gifting.artist_id (record example_params example_session example_draft)
         = "artist-7"
      /\ thanksUrl example_params = "/events/2/performers/7/thanks").
Proof.
  assert (A : safe_integer (Int 3000)) by (vm_compute; split; discriminate).
  assert (B : safe_integer (Int 2)) by (vm_compute; split; discriminate).
  assert (C : safe_integer (Int 7)) by (vm_compute; split; discriminate).
  pose proof (confirm_saves_record_then_thanks example_params example_draft
                example_session None) as T.
  cbv zeta in T.
  destruct T as (_ & _ & Ham & _ & Hid & _ & Hname & _).
  split; [split; [reflexivity | exact (Hname eq_refl)]|].
  split; [split; [exact A | split; [reflexivity | exact (Ham 3000 A eq_refl)]]|].
  split; [reflexivity|]. split; [reflexivity|]. split; [exact B|]. split; [exact C|].
  exact (Hid 2 7 eq_refl eq_refl B C).
Defined.

(** C7. Under a route segment that names a member of [Object.prototype] the
    event id is not in the catalog, yet the lookup does not fall back to the
    placeholder: it yields the inherited member, and the confirmation saves a
    record with no event name and the event id [NaN]. *)
Theorem inherited_segment_skips_placeholder (pid : string) (p : Draft.t)
    (session : Session.t) :
  Forall (fun key =>
            let params := {| Params.id := key; Params.performerId := pid |} in
            let r := record params session p in
            ~ In (eventId params) catalog_ids
            /\ event params = Inherited
            /\ event params
               <> Entry {| Event.id := eventId params; Event.title := placeholder_title |}
            /\ saved (fst (handleConfirm params false (Some p)
                             (Returns (Some session)))) = [r]
            /\ Gifting.event_name r = None
            /\ Gifting.event_name r <> Some placeholder_title
            /\ Gifting.event_id r = NaN)
    Object_prototype_keys.
Proof.
  unfold Object_prototype_keys.
  repeat (apply Forall_cons;
          [cbv zeta; repeat split; try discriminate;
           cbv; intuition discriminate|]).
  apply Forall_nil.
Qed.

(** *** Numbers beyond the safe range *)

(** The page's numbers are doubles: an amount one above [2 ^ 53] is saved as
    [2 ^ 53], an amount of 310 digits as [Infinity], the amount [-0] as
    negative zero. *)
Example amounts_beyond_the_safe_range :
  Number_parseInt "9007199254740993" = Int 9007199254740992
  /\ Number_parseInt (String "1" (zeros 309)) = Infinity
  /\ Number_parseInt "-0" = NegZero.
Proof. repeat split; vm_compute; reflexivity. Qed.

(** From [1e21] on an id is printed in exponent form, in the artist id and
    in the paths alike. *)
Example ids_beyond_the_safe_range :
  let params := {| Params.id := "1000000000000000000000";
                   Params.performerId := "1000000000000000000000" |} in
  eventId params = Int (10 ^ 21)
  /\ Gifting.artist_id (record params example_session example_draft) = "artist-1e+21"
  /\ draftEntryUrl params = "/events/1e+21/performers/1e+21"
  /\ thanksUrl params = "/events/1e+21/performers/1e+21/thanks".
Proof. repeat split; vm_compute; reflexivity. Qed.

(** ** Further properties of the page *)

(** *** Tools for runs *)

(** A state property kept by every input, and a property of call lists that
    every input's calls have and that concatenation keeps, hold of a run. *)
Lemma run_preserves (params : Params.t) (P : State -> Prop)
    (Q : list Action -> Prop) :
  (forall s i, P s -> P (fst (step params s i)) /\ Q (snd (step params s i))) ->
  Q [] ->
  (forall a b, Q a -> Q b -> Q (a ++ b)%list) ->
  forall inputs s, P s ->
    P (fst (run params s inputs)) /\ Q (snd (run params s inputs)).
Proof.
  intros Hstep Hnil Happ. induction inputs as [|i rest IH]; intros s Hs.
  - split; [exact Hs | exact Hnil].
  - cbn [run]. destruct (Hstep s i Hs) as [H1 Q1].
    destruct (step params s i) as [s1 a1]. cbn [fst snd] in H1, Q1.
    destruct (IH s1 H1) as [H2 Q2].
    destruct (run params s1 rest) as [s2 a2]. cbn [fst snd] in *.
    split; [exact H2 | apply Happ; assumption].
Qed.

Lemma saved_app (a b : list Action) : saved (a ++ b) = (saved a ++ saved b)%list.
Proof.
  induction a as [|x a IH]; [reflexivity|]. destruct x; cbn; now rewrite ?IH.
Qed.

Lemma pushes_app (a b : list Action) : pushes (a ++ b) = (pushes a ++ pushes b)%list.
Proof.
  induction a as [|x a IH]; [reflexivity|]. destruct x; cbn; now rewrite ?IH.
Qed.

Lemma toasts_app (a b : list Action) : toasts (a ++ b) = (toasts a ++ toasts b)%list.
Proof.
  induction a as [|x a IH]; [reflexivity|]. destruct x; cbn; now rewrite ?IH.
Qed.

(** No handler touches [paymentInfo]: only the mount effect sets it. *)
Lemma paymentInfo_step (params : Params.t) (s : State) (i : Input) :
  paymentInfo (fst (step params s i)) = paymentInfo s.
Proof.
  destruct s as [sub pinfo infl tm]. destruct i as [g | n settled |].
  - destruct sub; [reflexivity|].
    destruct g as [[sess|] | f]; [destruct pinfo| |]; reflexivity.
  - unfold step. cbn [inflight]. destruct (nth_error infl n); [|reflexivity].
    destruct settled as [[[] e] | f]; reflexivity.
  - destruct tm; reflexivity.
Qed.

(** *** The draft snapshot *)

(** Mounted without a draft, the page never calls [saveGifting] and never
    shows anything but the loading text, whatever happens to it. *)
Theorem no_draft_never_saves (params : Params.t) (inputs : list Input) :
  saved (snd (run params (fst (mount params None)) inputs)) = []
  /\ render params (fst (run params (fst (mount params None)) inputs))
     = View.Loading loading_text.
Proof.
  destruct (run_preserves params
              (fun s => paymentInfo s = None /\ inflight s = [])
              (fun l => saved l = [])) with (inputs := inputs)
              (s := fst (mount params None)) as [[HP _] HS].
  - intros s i [Hp Hi]. destruct s as [sub pinfo infl tm].
    cbn [paymentInfo inflight] in Hp, Hi. subst pinfo infl.
    destruct i as [g | n settled |].
    + destruct sub; [repeat split|].
      destruct g as [[sess|] | f]; repeat split.
    + destruct n; repeat split.
    + destruct tm; repeat split.
  - reflexivity.
  - intros a b Ha Hb. now rewrite saved_app, Ha, Hb.
  - split; reflexivity.
  - split; [exact HS|]. unfold render. now rewrite HP.
Qed.

(** *** Timers and the navigation to the thanks page *)

Lemma login_is_not_thanks (params : Params.t) :
  is_push_to (thanksUrl params) (router_push "/login") = false.
Proof. reflexivity. Qed.

(** Every timer set is either still pending or has made its one navigation
    to the thanks path: an input keeps the balance. *)
Lemma step_timer_balance (params : Params.t) (s : State) (i : Input) :
  (List.length (timers (fst (step params s i)))
   + count (is_push_to (thanksUrl params)) (snd (step params s i))
   = List.length (timers s) + count is_setTimeout (snd (step params s i)))%nat.
Proof.
  destruct s as [sub pinfo infl tm]. destruct i as [g | n settled |].
  - destruct sub; [cbn; lia|].
    destruct g as [[sess|] | f]; [destruct pinfo| |]; cbn; lia.
  - unfold step. cbn [inflight]. destruct (nth_error infl n); [|cbn; lia].
    destruct settled as [[[] e] | f]; cbn; rewrite ?length_app; cbn; lia.
  - destruct tm as [|t tm]; [cbn; lia|].
    unfold step, count. cbn. rewrite String.eqb_refl. cbn. lia.
Qed.

Lemma run_timer_balance (params : Params.t) (inputs : list Input) :
  forall s,
    (List.length (timers (fst (run params s inputs)))
     + count (is_push_to (thanksUrl params)) (snd (run params s inputs))
     = List.length (timers s) + count is_setTimeout (snd (run params s inputs)))%nat.
Proof.
  induction inputs as [|i rest IH]; intros s; [cbn; lia|].
  cbn [run]. pose proof (step_timer_balance params s i) as B.
  destruct (step params s i) as [s1 a1]. cbn [fst snd] in B.
  specialize (IH s1). destruct (run params s1 rest) as [s2 a2].
  cbn [fst snd] in *. rewrite !count_app. lia.
Qed.



(** Setting the timer leaves the flag set and nothing outstanding. *)
Lemma step_setTimeout_locks (params : Params.t) (s : State) (i : Input) :
  guarded s ->
  count is_setTimeout (snd (step params s i)) = 0%nat
  \/ (count is_setTimeout (snd (step params s i)) = 1%nat
      /\ isSubmitting (fst (step params s i)) = true
      /\ inflight (fst (step params s i)) = []).
Proof.
  intros G. destruct s as [sub pinfo infl tm]. destruct i as [g | n settled |].
  - left. destruct sub; [reflexivity|].
    destruct g as [[sess|] | f]; [destruct pinfo| |]; reflexivity.
  - destruct G as [E | [S [r E]]]; cbn [inflight isSubmitting] in *; subst.
    + left. destruct n; reflexivity.
    + destruct n as [|n]; [|left; destruct n; reflexivity].
      destruct settled as [[[] e] | f]; [right; repeat split | left; reflexivity ..].
  - left. destruct tm; reflexivity.
Qed.

Lemma locked_step_no_timer (params : Params.t) (s : State) (i : Input) :
  isSubmitting s = true -> inflight s = [] ->
  count is_setTimeout (snd (step params s i)) = 0%nat.
Proof.
  intros S I. destruct s as [sub pinfo infl tm]. cbn in S, I. subst.
  destruct i as [g | n settled |]; [reflexivity | destruct n; reflexivity
                                    | destruct tm; reflexivity].
Qed.

Lemma locked_run_no_timer (params : Params.t) (inputs : list Input) :
  forall s, isSubmitting s = true -> inflight s = [] ->
    count is_setTimeout (snd (run params s inputs)) = 0%nat.
Proof.
  induction inputs as [|i rest IH]; intros s S I; [reflexivity|].
  cbn [run]. pose proof (locked_step_no_timer params s i S I) as C.
  destruct (locked_step params s i S I) as (S1 & I1 & _ & _).
  destruct (step params s i) as [s1 a1]. cbn [fst snd] in *.
  specialize (IH s1 S1 I1). destruct (run params s1 rest) as [s2 a2].
  cbn [fst snd] in *. rewrite count_app. lia.
Qed.

Lemma guarded_run_one_timer (params : Params.t) (inputs : list Input) :
  forall s, guarded s ->
    (count is_setTimeout (snd (run params s inputs)) <= 1)%nat.
Proof.
  induction inputs as [|i rest IH]; intros s G; [cbn; lia|].
  cbn [run]. pose proof (guarded_step params s i G) as G1.
  pose proof (step_setTimeout_locks params s i G) as [C | (C & S1 & I1)];
    destruct (step params s i) as [s1 a1]; cbn [fst snd] in *.
  - specialize (IH s1 G1). destruct (run params s1 rest) as [s2 a2].
    cbn [fst snd] in *. rewrite count_app. lia.
  - pose proof (locked_run_no_timer params rest s1 S1 I1) as Z.
    destruct (run params s1 rest) as [s2 a2].
    cbn [fst snd] in *. rewrite count_app. lia.
Qed.


(** *** How often [saveGifting] is called *)

(** What the flag still allows: one call when it is clear. *)
Lemma step_save_budget (params : Params.t) (s : State) (i : Input) :
  guarded s ->
  (count is_saveGifting (snd (step params s i))
   + (if isSubmitting (fst (step params s i)) then 0 else 1)
   <= (if isSubmitting s then 0 else 1)
      + (if settles_failure i then 1 else 0))%nat.
Proof.
  intros G. destruct s as [sub pinfo infl tm]. destruct i as [g | n settled |].
  - destruct sub; [cbn; lia|].
    destruct g as [[sess|] | f]; [destruct pinfo| |]; cbn; lia.
  - destruct G as [E | [S [r E]]]; cbn [inflight isSubmitting] in *; subst.
    + destruct n; cbn; destruct sub, settled as [[[] e]|f]; cbn; lia.
    + destruct n as [|n].
      * destruct settled as [[[] e] | f]; cbn; lia.
      * destruct n; cbn; destruct settled as [[[] e]|f]; cbn; lia.
  - destruct tm; cbn; destruct sub; lia.
Qed.

Lemma run_save_budget (params : Params.t) (inputs : list Input) :
  forall s, guarded s ->
    (count is_saveGifting (snd (run params s inputs))
     <= (if isSubmitting s then 0 else 1)
        + List.length (filter settles_failure inputs))%nat.
Proof.
  induction inputs as [|i rest IH]; intros s G; [cbn; lia|].
  cbn [run filter]. pose proof (guarded_step params s i G) as G1.
  pose proof (step_save_budget params s i G) as B.
  destruct (step params s i) as [s1 a1]. cbn [fst snd] in *.
  specialize (IH s1 G1). destruct (run params s1 rest) as [s2 a2].
  cbn [fst snd] in *. rewrite count_app.
  destruct (settles_failure i); cbn [List.length]; lia.
Qed.

(** *** Attempts that fail *)

(** An attempt that ends in a failure result, in a rejection, or in a fault
    of [getUserSession] leaves the instance exactly as it was before the
    confirmation: nothing of the failure is kept in the state. *)
Theorem failed_attempt_leaves_no_trace (params : Params.t) (p : Draft.t)
    (tm : list Z) (session : Session.t) (err : option string) (f : Fault) :
  let idle := {| isSubmitting := false; paymentInfo := Some p;
                 inflight := []; timers := tm |} in
  let failure := Returns {| SaveResult.success := false; SaveResult.error := err |} in
  fst (run params idle [confirm (Returns (Some session)); settle 0 failure]) = idle
  /\ fst (run params idle [confirm (Returns (Some session)); settle 0 (Throws f)]) = idle
  /\ fst (step params idle (confirm (Throws f))) = idle
  /\ render params idle
     = render params
         (fst (run params idle [confirm (Returns (Some session)); settle 0 failure])).
Proof. repeat split. Qed.

(** The session is read at every attempt: after a failed attempt made under
    one session, a retry made under another saves under the other, and a
    retry made with no session saves nothing and goes to the login page. *)
Theorem retry_reads_session_again (params : Params.t) (p : Draft.t)
    (tm : list Z) (first second : Session.t) (err : option string) :
  let idle := {| isSubmitting := false; paymentInfo := Some p;
                 inflight := []; timers := tm |} in
  let failure := Returns {| SaveResult.success := false; SaveResult.error := err |} in
  saved (snd (run params idle [confirm (Returns (Some first)); settle 0 failure;
                               confirm (Returns (Some second))]))
  = [record params first p; record params second p]
  /\ Gifting.user_id (record params second p) = Session.email second
  /\ Gifting.user_name (record params second p) = Session.name second
  /\ saved (snd (run params idle [confirm (Returns (Some first)); settle 0 failure;
                                  confirm (Returns None)]))
     = [record params first p]
  /\ pushes (snd (run params idle [confirm (Returns (Some first)); settle 0 failure;
                                   confirm (Returns None)]))
     = ["/login"].
Proof. repeat split. Qed.

(** *** What one input can cause *)

(** In any state, one input causes at most one toast, one navigation, one
    [saveGifting] call and one timer, and never a toast together with a
    [saveGifting] call or a timer. *)
Theorem one_input_one_call_of_a_kind (params : Params.t) (s : State) (i : Input) :
  let acts := snd (step params s i) in
  (count is_toast acts <= 1)%nat
  /\ (count is_router_push acts <= 1)%nat
  /\ (count is_saveGifting acts <= 1)%nat
  /\ (count is_setTimeout acts <= 1)%nat
  /\ (count is_toast acts + count is_saveGifting acts + count is_setTimeout acts <= 1)%nat.
Proof.
  destruct s as [sub pinfo infl tm]. destruct i as [g | n settled |]; cbv zeta.
  - destruct sub; [cbn; lia|].
    destruct g as [[sess|] | f]; [destruct pinfo| |]; cbn; lia.
  - unfold step. cbn [inflight]. destruct (nth_error infl n); [|cbn; lia].
    destruct settled as [[[] e] | f]; cbn; lia.
  - destruct tm; cbn; lia.
Qed.

Lemma toast_text_mono (l l' : list Input) (d : string) :
  (forall x, In x l -> In x l') -> toast_text l d -> toast_text l' d.
Proof.
  intros H [T | [T | [T | (n & r & I & S & E & N)]]]; unfold toast_text; auto.
  right; right; right. exists n, r. auto.
Qed.

Lemma step_toasts (params : Params.t) (s : State) (i : Input) :
  Forall (fun tdv => fst (fst tdv) = error_title /\ snd tdv = destructive
                     /\ toast_text [i] (snd (fst tdv)))
    (toasts (snd (step params s i))).
Proof.
  assert (F : forall d, toast_text [i] d ->
                Forall (fun tdv => fst (fst tdv) = error_title /\ snd tdv = destructive
                                   /\ toast_text [i] (snd (fst tdv)))
                  [(error_title, d, destructive)]).
  { intros d T. apply Forall_cons; [repeat split; exact T | apply Forall_nil]. }
  destruct s as [sub pinfo infl tm]. destruct i as [g | n settled |].
  - destruct sub; [apply Forall_nil|].
    destruct g as [[sess|] | f]; [destruct pinfo| |]; cbn;
      try apply Forall_nil; apply F; unfold toast_text; auto.
  - unfold step. cbn [inflight]. destruct (nth_error infl n); [|apply Forall_nil].
    destruct settled as [[[] e] | f]; cbn; try apply Forall_nil; apply F.
    + destruct e as [[|c r]|]; cbn; unfold toast_text; auto.
      right; right; right.
      exists n, {| SaveResult.success := false; SaveResult.error := Some (String c r) |}.
      cbn. repeat split; auto. discriminate.
    + unfold toast_text; auto.
  - destruct tm; cbn; apply Forall_nil.
Qed.

(** Every toast the page makes, whatever its state and whatever happens, is
    an error toast: its title is the error title, its variant is
    [destructive], and its text is one of the three fixed texts or the
    non-empty [error] of a failure result the page received. *)
Theorem toasts_are_error_toasts (params : Params.t) (inputs : list Input) :
  forall s,
    Forall (fun tdv => fst (fst tdv) = error_title /\ snd tdv = destructive
                       /\ toast_text inputs (snd (fst tdv)))
      (toasts (snd (run params s inputs))).
Proof.
  induction inputs as [|i rest IH]; intros s; [constructor|].
  cbn [run]. pose proof (step_toasts params s i) as T1.
  destruct (step params s i) as [s1 a1]. cbn [fst snd] in T1.
  specialize (IH s1). destruct (run params s1 rest) as [s2 a2]. cbn [fst snd] in *.
  rewrite toasts_app. apply Forall_app. split.
  - eapply Forall_impl; [|exact T1]. intros tdv (A & B & C). repeat split; auto.
    eapply toast_text_mono; [|exact C]. intros x [<- | []]. left; reflexivity.
  - eapply Forall_impl; [|exact IH]. intros tdv (A & B & C). repeat split; auto.
    eapply toast_text_mono; [|exact C]. intros x I. right; exact I.
Qed.

(** *** Where the page navigates *)

(** The mount effect navigates nowhere or to the draft-entry path; after it,
    whatever happens, the page navigates to the login page or to the thanks
    path and nowhere else. *)
Theorem navigation_targets (params : Params.t) (getPaymentInfo : option Draft.t)
    (s : State) (inputs : list Input) :
  Forall (fun p => p = draftEntryUrl params) (pushes (snd (mount params getPaymentInfo)))
  /\ Forall (fun p => p = "/login" \/ p = thanksUrl params)
       (pushes (snd (run params s inputs))).
Proof.
  split; [destruct getPaymentInfo; cbn; auto|].
  apply (run_preserves params (fun _ => True)
           (fun l => Forall (fun p => p = "/login" \/ p = thanksUrl params) (pushes l)));
    [| constructor | | exact I].
  - intros [sub pinfo infl tm] i _. split; [exact I|].
    destruct i as [g | n settled |].
    + destruct sub; [apply Forall_nil|].
      destruct g as [[sess|] | f]; [destruct pinfo| |]; cbn; auto.
    + unfold step. cbn [inflight]. destruct (nth_error infl n); [|apply Forall_nil].
      destruct settled as [[[] e] | f]; cbn; auto.
    + destruct tm; cbn; auto.
  - intros a b Ha Hb. rewrite pushes_app. apply Forall_app. split; assumption.
Qed.

(** The ids the page prints into its links read back as the page's own ids:
    a page entered through the draft-entry or thanks path this page builds
    has the same event id and performer id, and builds the same paths.  The
    ids are taken in the range the engine holds exactly and prints in plain
    digits. *)
Theorem links_round_trip (params : Params.t) :
  safe_integer (eventId params) ->
  safe_integer (performerId params) ->
  let linked := {| Params.id := Number_toString (eventId params);
                   Params.performerId := Number_toString (performerId params) |} in
  eventId linked = eventId params
  /\ performerId linked = performerId params
  /\ draftEntryUrl linked = draftEntryUrl params
  /\ thanksUrl linked = thanksUrl params.
Proof.
  intros Se Sq linked.
  assert (E : eventId linked = eventId params).
  { unfold linked, eventId in *; cbn [Params.id].
    destruct (Number_parseInt (Params.id params)); try contradiction;
      [reflexivity|].
    apply parseInt_toString, safe_integer_range, Se. }
  assert (Q : performerId linked = performerId params).
  { unfold linked, performerId in *; cbn [Params.performerId].
    destruct (Number_parseInt (Params.performerId params)); try contradiction;
      [reflexivity|].
    apply parseInt_toString, safe_integer_range, Sq. }
  repeat split; try assumption; unfold draftEntryUrl, thanksUrl; now rewrite E, Q.
Qed.

(** The round trip on the visit of event 2, performer 7. *)
Lemma links_round_trip_witness :
  safe_integer (eventId example_params)
  /\ safe_integer (performerId example_params)
  /\ eventId {| Params.id := Number_toString (eventId example_params);
                Params.performerId := Number_toString (performerId example_params) |}
     = eventId example_params.
Proof.
  assert (A : safe_integer (eventId example_params))
    by (vm_compute; split; discriminate).
  assert (B : safe_integer (performerId example_params))
    by (vm_compute; split; discriminate).
  split; [exact A|]. split; [exact B|].
  apply (links_round_trip example_params A B).
Defined.

(** *** The view *)

Lemma paymentInfo_run (params : Params.t) (inputs : list Input) :
  forall s, paymentInfo (fst (run params s inputs)) = paymentInfo s.
Proof.
  induction inputs as [|i rest IH]; intros s; [reflexivity|].
  cbn [run]. pose proof (paymentInfo_step params s i) as P.
  destruct (step params s i) as [s1 a1]. cbn [fst] in P.
  specialize (IH s1). destruct (run params s1 rest) as [s2 a2].
  cbn [fst] in *. congruence.
Qed.

(** Mounting with a draft calls no collaborator: the only call is the state
    setter, with a copy of the draft.  The first view is then the
    confirmation card, its button enabled and labelled for confirming. *)
Theorem mount_with_draft_shows_confirmation (params : Params.t) (info : Draft.t) :
  snd (mount params (Some info)) = [setPaymentInfo info]
  /\ fst (mount params (Some info))
     = {| isSubmitting := false; paymentInfo := Some info;
          inflight := []; timers := [] |}
  /\ exists v,
       render params (fst (mount params (Some info))) = View.Confirmation v
       /\ View.disabled v = false
       /\ View.label v = label_idle.
Proof.
  destruct info as [pn am cm]. repeat split.
  eexists. repeat split.
Qed.

(** Whatever has happened since the page was mounted with a draft, the card
    shows what a confirmation would save: the performer, the parsed amount
    and the comment on the card are those of the record built for any
    session, the comment row being absent exactly when the record has no
    comment; both links lead where the mount effect sends a visitor who has
    no draft. *)
Theorem view_shows_what_is_saved (params : Params.t) (info : Draft.t)
    (inputs : list Input) (session : Session.t) :
  let final := fst (run params (fst (mount params (Some info))) inputs) in
  let r := record params session info in
  exists v,
    render params final = View.Confirmation v
    /\ View.performerName v = Gifting.artist_name r
    /\ View.amount v = Gifting.amount r
    /\ View.comment v = Gifting.comment r
    /\ View.disabled v = isSubmitting final
    /\ pushes (snd (mount params None)) = [View.backHref v]
    /\ View.editHref v = View.backHref v.
Proof.
  cbv zeta. unfold render. rewrite paymentInfo_run.
  destruct info as [pn am cm]. cbn [mount fst snd initialize finish emit fold_left
    commit initial paymentInfo]. eexists. repeat split.
Qed.

(** An outstanding call implies a draft and a set flag. *)
Lemma outstanding_call_state (params : Params.t) (getPaymentInfo : option Draft.t)
    (inputs : list Input) :
  let final := fst (run params (fst (mount params getPaymentInfo)) inputs) in
  inflight final <> [] ->
  isSubmitting final = true /\ paymentInfo final = getPaymentInfo
  /\ getPaymentInfo <> None.
Proof.
  cbv zeta. intros N.
  destruct (guarded_run params inputs _ (guarded_mount params getPaymentInfo))
    as [E | [S _]]; [contradiction|].
  split; [exact S|]. rewrite paymentInfo_run.
  destruct getPaymentInfo as [[pn am cm]|]; [split; [reflexivity|discriminate]|].
  exfalso. apply N.
  destruct (run_preserves params
              (fun s => paymentInfo s = None /\ inflight s = [])
              (fun _ => True)) with (inputs := inputs)
              (s := fst (mount params None)) as [[_ HI] _]; auto.
  intros s i [Hp Hi]. destruct s as [sub pinfo infl tm].
  cbn [paymentInfo inflight] in Hp, Hi. subst pinfo infl.
  destruct i as [g | n settled |].
  - destruct sub; [repeat split|].
    destruct g as [[sess|] | f]; repeat split.
  - destruct n; repeat split.
  - destruct tm; repeat split.
Qed.

(** *** The event name of the record *)

(** The record carries no event name exactly when the route's event segment
    names a member of [Object.prototype]; the segment then does not parse, so
    the record's event id is [NaN] as well.  Under every other segment the
    record has an event name. *)
Theorem event_name_missing_iff_inherited_key (params : Params.t)
    (session : Session.t) (p : Draft.t) :
  (Gifting.event_name (record params session p) = None
   <-> In (Params.id params) Object_prototype_keys)
  /\ (Gifting.event_name (record params session p) = None ->
      Gifting.event_id (record params session p) = NaN).
Proof.
  assert (K : Gifting.event_name (record params session p) = None
              <-> In (Params.id params) Object_prototype_keys).
  { cbn [record Gifting.event_name]. unfold event, events_get.
    destruct (own_property events (Params.id params)) as [e|] eqn:O.
    - split; [discriminate|]. intros I. exfalso.
      revert O. cbn in I.
      repeat (destruct I as [<- | I]; [discriminate|]). contradiction.
    - destruct (existsb (String.eqb (Params.id params)) Object_prototype_keys) eqn:X.
      + split; [intros _ | reflexivity].
        apply existsb_exists in X. destruct X as (k & I & E).
        apply String.eqb_eq in E. now subst k.
      + split; [discriminate|]. intros I.
        assert (existsb (String.eqb (Params.id params)) Object_prototype_keys = true).
        { apply existsb_exists. exists (Params.id params).
          split; [exact I | apply String.eqb_refl]. }
        congruence. }
  split; [exact K|]. intros H. apply K in H.
  cbn [record Gifting.event_id]. unfold eventId. apply inherited_key_is_NaN.
  apply existsb_exists. exists (Params.id params).
  split; [exact H | apply String.eqb_refl].
Qed.

(** Under the segment [toString] the record has neither event name nor id. *)
Lemma event_name_missing_iff_inherited_key_witness :
  Gifting.event_name
    (record {| Params.id := "toString"; Params.performerId := "7" |}
       example_session example_draft) = None
  /\ Gifting.event_id
       (record {| Params.id := "toString"; Params.performerId := "7" |}
          example_session example_draft) = NaN.
Proof.
  split; [reflexivity|].
  apply (event_name_missing_iff_inherited_key
           {| Params.id := "toString"; Params.performerId := "7" |}
           example_session example_draft).
  reflexivity.
Defined.


(** ** Renders and the double-submission flag *)

(** A run of events whose confirmations all meet an up-to-date render is a
    run of its inputs on the committed state. *)
Lemma play_up_to_date (params : Params.t) (events : list Event) :
  forall (pg : Page) (current : bool),
    (current = true -> rendered pg = committed pg) ->
    up_to_date current events = true ->
    committed (fst (play params pg events))
    = fst (run params (committed pg) (inputs_of events))
    /\ snd (play params pg events) = snd (run params (committed pg) (inputs_of events)).
Proof.
  induction events as [|e rest IH]; intros pg current C U; [split; reflexivity|].
  destruct e as [i|].
  - assert (D : deliver params pg (dispatch i)
                = ({| committed := fst (step params (committed pg) i);
                      rendered := rendered pg |},
                   snd (step params (committed pg) i))).
    { destruct i as [g | n settled |].
      - cbn [up_to_date] in U. apply andb_prop in U. destruct U as [U _].
        cbn [deliver step fst snd]. now rewrite (C U).
      - cbn [deliver]. now destruct (step params (committed pg) (settle n settled)).
      - cbn [deliver]. now destruct (step params (committed pg) timer_fires). }
    assert (U' : up_to_date false rest = true).
    { destruct i; cbn [up_to_date] in U; [apply andb_prop in U; tauto | exact U ..]. }
    cbn [play inputs_of run]. rewrite D.
    specialize (IH {| committed := fst (step params (committed pg) i);
                      rendered := rendered pg |} false
                  (fun H => False_ind _ (Bool.diff_false_true H)) U').
    cbn [committed] in IH.
    destruct (step params (committed pg) i) as [s1 a1]. cbn [fst snd] in *.
    destruct IH as [I1 I2].
    destruct (play params {| committed := s1; rendered := rendered pg |} rest)
      as [pg2 a2].
    destruct (run params s1 (inputs_of rest)) as [s2 b2]. cbn [fst snd] in *.
    split; congruence.
  - cbn [play inputs_of deliver up_to_date] in *.
    specialize (IH {| committed := committed pg; rendered := committed pg |} true
                  (fun _ => eq_refl) U).
    cbn [committed] in IH.
    destruct (play params {| committed := committed pg; rendered := committed pg |} rest)
      as [pg2 a2]. cbn [fst snd] in *. exact IH.
Qed.

Lemma play_app (params : Params.t) (a b : list Event) :
  forall pg,
    play params pg (a ++ b)
    = (fst (play params (fst (play params pg a)) b),
       (snd (play params pg a) ++ snd (play params (fst (play params pg a)) b))%list).
Proof.
  induction a as [|e a IH]; intros pg.
  - cbn. now destruct (play params pg b).
  - cbn [app play]. destruct (deliver params pg e) as [pg1 a1].
    rewrite (IH pg1). destruct (play params pg1 a) as [pg2 a2]. cbn [fst snd].
    destruct (play params pg2 b) as [pg3 a3]. cbn [fst snd].
    now rewrite app_assoc.
Qed.

(** C2, as the code has it. The guard reads the [isSubmitting] of the render
    that created the handler.  Two confirmations that reach the same render
    both find it clear and both call [saveGifting]: two calls are outstanding
    at once.  When both succeed two timers are set and the thanks path is
    pushed twice; when the first fails, the flag is cleared and the button
    rendered enabled while the second call is still outstanding.  A render
    between the two confirmations is what makes the second one a no-op. *)
Theorem same_render_confirms_both_save (params : Params.t) (p : Draft.t)
    (first second : Session.t) (e : option string) :
  let page := fst (first_render params (Some p)) in
  let twice := [rerender; dispatch (confirm (Returns (Some first)));
                dispatch (confirm (Returns (Some second)))] in
  let success := Returns {| SaveResult.success := true; SaveResult.error := e |} in
  let failure := Returns {| SaveResult.success := false; SaveResult.error := e |} in
  saved (snd (play params page twice))
  = [record params first p; record params second p]
  /\ count is_saveGifting (snd (play params page twice)) = 2%nat
  /\ inflight (committed (fst (play params page twice)))
     = [record params first p; record params second p]
  /\ count (is_push_to (thanksUrl params))
       (snd (play params page
               (twice ++ [dispatch (settle 0 success); dispatch (settle 0 success);
                          dispatch timer_fires; dispatch timer_fires]))) = 2%nat
  /\ (let after := fst (play params page
                          (twice ++ [dispatch (settle 0 failure); rerender])) in
      isSubmitting (committed after) = false
      /\ inflight (committed after) = [record params second p]
      /\ exists v, render params (rendered after) = View.Confirmation v
                   /\ View.disabled v = false)
  /\ saved (snd (play params page
                   [rerender; dispatch (confirm (Returns (Some first)));
                    rerender; dispatch (confirm (Returns (Some second)))]))
     = [record params first p].
Proof.
  destruct p as [pn am cm]. cbv zeta.
  repeat match goal with |- _ /\ _ => split end; try reflexivity.
  - unfold count. cbn. rewrite String.eqb_refl. reflexivity.
  - eexists. split; reflexivity.
Qed.

(** *** The draft snapshot and the sessions *)

Lemma subsequence_app {A : Type} (a b c d : list A) :
  subsequence a b -> subsequence c d -> subsequence (a ++ c) (b ++ d).
Proof.
  intros H K. induction H; cbn; [exact K | now apply subsequence_keep
                                 | now apply subsequence_skip].
Qed.

(** What one event can save: nothing, or the one record it offers. *)
Lemma deliver_saved (params : Params.t) (info : Draft.t) (pg : Page) (e : Event) :
  paymentInfo (committed pg) = Some info ->
  (paymentInfo (rendered pg) = None \/ paymentInfo (rendered pg) = Some info) ->
  paymentInfo (committed (fst (deliver params pg e))) = Some info
  /\ (paymentInfo (rendered (fst (deliver params pg e))) = None
      \/ paymentInfo (rendered (fst (deliver params pg e))) = Some info)
  /\ subsequence (saved (snd (deliver params pg e))) (offered params info [e]).
Proof.
  intros C R. destruct e as [[g | n settled |] |].
  - destruct pg as [[csub cpi cinfl ctm] [rsub rpi rinfl rtm]].
    cbn [committed rendered paymentInfo] in *. subst cpi.
    destruct rsub.
    + cbn. repeat split; auto.
      destruct g as [[sess|]|f]; repeat constructor.
    + destruct g as [[sess|] | f]; [destruct R as [-> | ->] | |];
        cbn; repeat split; auto; repeat constructor.
  - cbn [deliver].
    pose proof (paymentInfo_step params (committed pg) (settle n settled)) as P.
    assert (S : saved (snd (step params (committed pg) (settle n settled))) = []).
    { destruct (committed pg) as [sub pinfo infl tm]. unfold step. cbn [inflight].
      destruct (nth_error infl n); [|reflexivity].
      destruct settled as [[[] e] | f]; reflexivity. }
    destruct (step params (committed pg) (settle n settled)) as [s1 a1].
    cbn [fst snd committed rendered] in *. rewrite S.
    repeat split; [congruence | exact R | constructor].
  - cbn [deliver].
    pose proof (paymentInfo_step params (committed pg) timer_fires) as P.
    assert (S : saved (snd (step params (committed pg) timer_fires)) = []).
    { destruct (committed pg) as [sub pinfo infl tm]. destruct tm; reflexivity. }
    destruct (step params (committed pg) timer_fires) as [s1 a1].
    cbn [fst snd committed rendered] in *. rewrite S.
    repeat split; [congruence | exact R | constructor].
  - cbn. repeat split; auto. constructor.
Qed.

Lemma offered_cons (params : Params.t) (info : Draft.t) (e : Event)
    (rest : list Event) :
  offered params info (e :: rest)
  = (offered params info [e] ++ offered params info rest)%list.
Proof.
  destruct e as [[[[sess|]|f] | n settled |] |]; reflexivity.
Qed.

Lemma play_saved (params : Params.t) (info : Draft.t) (events : list Event) :
  forall pg,
    paymentInfo (committed pg) = Some info ->
    (paymentInfo (rendered pg) = None \/ paymentInfo (rendered pg) = Some info) ->
    paymentInfo (committed (fst (play params pg events))) = Some info
    /\ subsequence (saved (snd (play params pg events))) (offered params info events).
Proof.
  induction events as [|e rest IH]; intros pg C R.
  - split; [exact C | constructor].
  - cbn [play]. destruct (deliver_saved params info pg e C R) as (C1 & R1 & S1).
    destruct (deliver params pg e) as [pg1 a1]. cbn [fst snd] in *.
    destruct (IH pg1 C1 R1) as [C2 S2].
    destruct (play params pg1 rest) as [pg2 a2]. cbn [fst snd] in *.
    split; [exact C2|].
    rewrite saved_app, offered_cons. apply subsequence_app; assumption.
Qed.

(** Once the page is mounted with a draft, whatever happens to it, renders
    included, [paymentInfo] stays that draft, and the records handed to
    [saveGifting] are, in order, records of confirmations made under a
    session: each is built from the session that [getUserSession] returned to
    its own confirmation and from the mounted draft, and no confirmation is
    saved twice. *)
Theorem saved_records_come_from_the_mounted_draft (params : Params.t)
    (info : Draft.t) (events : list Event) :
  let page := fst (first_render params (Some info)) in
  paymentInfo (committed (fst (play params page events))) = Some info
  /\ subsequence (saved (snd (play params page events)))
       (offered params info events).
Proof.
  cbv zeta. apply play_saved.
  - destruct info; reflexivity.
  - left; reflexivity.
Qed.

(** *** What holds when renders keep up *)

(** When every confirmation meets an up-to-date render, a mounted page sets
    its timer at most once and navigates to the thanks path at most once. *)
Theorem at_most_one_thanks_navigation (params : Params.t)
    (getPaymentInfo : option Draft.t) (events : list Event) :
  up_to_date false events = true ->
  let acts := snd (play params (fst (first_render params getPaymentInfo)) events) in
  (count is_setTimeout acts <= 1)%nat
  /\ (count (is_push_to (thanksUrl params)) acts <= 1)%nat.
Proof.
  intros U. cbv zeta.
  destruct (play_up_to_date params events (fst (first_render params getPaymentInfo))
              false (fun H => False_ind _ (Bool.diff_false_true H)) U) as [_ A].
  rewrite A. cbn [first_render fst committed].
  pose proof (guarded_run_one_timer params (inputs_of events) _
                (guarded_mount params getPaymentInfo)) as T.
  pose proof (run_timer_balance params (inputs_of events)
                (fst (mount params getPaymentInfo))) as B.
  assert (E : timers (fst (mount params getPaymentInfo)) = [])
    by (destruct getPaymentInfo; reflexivity).
  rewrite E in B. cbn [List.length] in B. lia.
Qed.

(** On the example visit the thanks path is pushed exactly once. *)
Lemma at_most_one_thanks_navigation_witness :
  up_to_date false example_events = true
  /\ (count (is_push_to (thanksUrl example_params))
        (snd (play example_params
                (fst (first_render example_params (Some example_draft)))
                example_events)) <= 1)%nat.
Proof.
  split; [reflexivity|].
  apply (at_most_one_thanks_navigation example_params (Some example_draft)
           example_events eq_refl).
Defined.

(** When every confirmation meets an up-to-date render, a mounted page calls
    [saveGifting] at most once more than it has been told of a failed call: a
    further call is made only after the previous one settled with a failure
    result or a rejection. *)
Theorem saves_bounded_by_failures (params : Params.t)
    (getPaymentInfo : option Draft.t) (events : list Event) :
  up_to_date false events = true ->
  (count is_saveGifting
     (snd (play params (fst (first_render params getPaymentInfo)) events))
   <= 1 + List.length (filter settles_failure (inputs_of events)))%nat.
Proof.
  intros U.
  destruct (play_up_to_date params events (fst (first_render params getPaymentInfo))
              false (fun H => False_ind _ (Bool.diff_false_true H)) U) as [_ A].
  rewrite A. cbn [first_render fst committed].
  pose proof (run_save_budget params (inputs_of events) _
                (guarded_mount params getPaymentInfo)) as B.
  assert (E : isSubmitting (fst (mount params getPaymentInfo)) = false)
    by (destruct getPaymentInfo; reflexivity).
  rewrite E in B. exact B.
Qed.

(** On the example visit no call fails and [saveGifting] is called at most
    once. *)
Lemma saves_bounded_by_failures_witness :
  up_to_date false example_events = true
  /\ (count is_saveGifting
        (snd (play example_params
                (fst (first_render example_params (Some example_draft)))
                example_events))
      <= 1 + List.length (filter settles_failure (inputs_of example_events)))%nat.
Proof.
  split; [reflexivity|].
  apply (saves_bounded_by_failures example_params (Some example_draft)
           example_events eq_refl).
Defined.

(** When every confirmation has met an up-to-date render and React has
    rendered the page again, then as long as a [saveGifting] call is
    outstanding the card is shown with its confirm button disabled and
    labelled as processing. *)
Theorem button_disabled_while_call_outstanding (params : Params.t)
    (getPaymentInfo : option Draft.t) (events : list Event) :
  up_to_date false events = true ->
  let page := fst (play params (fst (first_render params getPaymentInfo))
                     (events ++ [rerender])) in
  inflight (committed page) <> [] ->
  exists v,
    render params (rendered page) = View.Confirmation v
    /\ View.disabled v = true
    /\ View.label v = label_submitting.
Proof.
  intros U. cbv zeta. rewrite play_app. cbn [fst play deliver committed rendered].
  destruct (play_up_to_date params events (fst (first_render params getPaymentInfo))
              false (fun H => False_ind _ (Bool.diff_false_true H)) U) as [C _].
  rewrite C. cbn [first_render fst committed]. intros N.
  destruct (outstanding_call_state params getPaymentInfo (inputs_of events) N)
    as (S & P & D).
  unfold render. rewrite P.
  destruct getPaymentInfo as [info|]; [|congruence].
  eexists. split; [reflexivity|]. cbn [View.disabled View.label]. rewrite S.
  split; reflexivity.
Qed.

(** Right after a confirmation under a session, once rendered, the call is
    outstanding and the button disabled. *)
Lemma button_disabled_while_call_outstanding_witness :
  up_to_date false example_confirmed = true
  /\ inflight
       (committed
          (fst (play example_params
                  (fst (first_render example_params (Some example_draft)))
                  (example_confirmed ++ [rerender])))) <> []
  /\ exists v,
       render example_params
         (rendered
            (fst (play example_params
                    (fst (first_render example_params (Some example_draft)))
                    (example_confirmed ++ [rerender]))))
       = View.Confirmation v
       /\ View.disabled v = true
       /\ View.label v = label_submitting.
Proof.
  assert (N : inflight
                (committed
                   (fst (play example_params
                           (fst (first_render example_params (Some example_draft)))
                           (example_confirmed ++ [rerender])))) <> [])
    by (cbn; discriminate).
  split; [reflexivity|]. split; [exact N|].
  apply (button_disabled_while_call_outstanding example_params (Some example_draft)
           example_confirmed eq_refl N).
Defined.

(** When every confirmation has met an up-to-date render and React has
    rendered the page again: if the flag is clear then nothing is
    outstanding, and a confirmation made under a session sets the flag and
    calls [saveGifting] once, with the record of that session and the mounted
    draft. *)
Theorem enabled_confirm_saves (params : Params.t) (info : Draft.t)
    (events : list Event) (session : Session.t) :
  up_to_date false events = true ->
  let page := fst (play params (fst (first_render params (Some info)))
                     (events ++ [rerender])) in
  isSubmitting (committed page) = false ->
  inflight (committed page) = []
  /\ deliver params page (dispatch (confirm (Returns (Some session))))
     = ({| committed :=
             {| isSubmitting := true; paymentInfo := Some info;
                inflight := [record params session info];
                timers := timers (committed page) |};
           rendered := rendered page |},
        [setIsSubmitting true; saveGifting (record params session info)]).
Proof.
  intros U. cbv zeta. rewrite play_app. cbn [fst play deliver committed rendered].
  destruct (play_up_to_date params events (fst (first_render params (Some info)))
              false (fun H => False_ind _ (Bool.diff_false_true H)) U) as [C _].
  rewrite C. cbn [first_render fst committed]. intros S.
  pose proof (paymentInfo_run params (inputs_of events)
                (fst (mount params (Some info)))) as P.
  pose proof (guarded_run params (inputs_of events) _
                (guarded_mount params (Some info))) as G.
  destruct (fst (run params (fst (mount params (Some info))) (inputs_of events)))
    as [sub pinfo infl tm].
  cbn [isSubmitting paymentInfo inflight timers] in *. subst sub.
  destruct G as [E | [E _]]; [|discriminate]. cbn in E. subst infl.
  rewrite P. destruct info as [pn am cm]. split; reflexivity.
Qed.

(** After a rejected call, once rendered, the flag is clear again and
    nothing is outstanding. *)
Lemma enabled_confirm_saves_witness :
  up_to_date false example_rejected = true
  /\ isSubmitting
       (committed
          (fst (play example_params
                  (fst (first_render example_params (Some example_draft)))
                  (example_rejected ++ [rerender])))) = false
  /\ inflight
       (committed
          (fst (play example_params
                  (fst (first_render example_params (Some example_draft)))
                  (example_rejected ++ [rerender])))) = [].
Proof.
  split; [reflexivity|]. split; [reflexivity|].
  apply (enabled_confirm_saves example_params example_draft example_rejected
           example_session eq_refl).
  reflexivity.
Defined.

(** When every confirmation meets an up-to-date render, at most one
    [saveGifting] call is outstanding at any time. *)
Lemma one_call_in_flight_when_renders_keep_up (params : Params.t)
    (getPaymentInfo : option Draft.t) (events : list Event) :
  up_to_date false events = true ->
  (List.length
     (inflight (committed (fst (play params (fst (first_render params getPaymentInfo))
                                  events)))) <= 1)%nat.
Proof.
  intros U.
  destruct (play_up_to_date params events (fst (first_render params getPaymentInfo))
              false (fun H => False_ind _ (Bool.diff_false_true H)) U) as [C _].
  rewrite C. cbn [first_render fst committed].
  destruct (guarded_run params (inputs_of events) _
              (guarded_mount params getPaymentInfo)) as [E | [_ [r E]]];
    rewrite E; cbn; lia.
Qed.
